(** * rerss: a filtering RSS proxy (main.go)

    A shallow embedding of [main.go] and the properties of its two
    request handlers.  Go strings are byte strings ([string]); a pointer
    that may be nil is an [option]; a run-time panic is an outcome of
    the handler monad; the network, the clock and the RSS encoder are
    the fields of a [World]. *)

From Stdlib Require Import ZArith Lia List String Ascii DecimalString.
From stdpp Require Import gmap strings list.

Local Open Scope string_scope.
Local Open Scope list_scope.
Local Open Scope Z_scope.

(** ** The Go standard library functions [main.go] calls

    They are not part of the repository; each is written after the
    library's documented behaviour, in the shape of its code. *)

Definition newline : string := String (ascii_of_nat 10) "".
Definition tab : string := String (ascii_of_nat 9) "".

(** unicode/utf8: decoding the first rune of a byte string. *)
Module utf8.
Definition RuneError : Z := 0xFFFD.
Definition RuneSelf : Z := 0x80.

Definition byte (c : ascii) : Z := Z.of_N (N_of_ascii c).

(** Continuation byte, [locb <= b <= hicb]. *)
Definition cont (b : Z) : bool := (0x80 <=? b) && (b <=? 0xBF).

(** The range accepted for the second byte, by first byte
    ([acceptRanges]). *)
Definition accept (s0 s1 : Z) : bool :=
  if s0 =? 0xE0 then (0xA0 <=? s1) && (s1 <=? 0xBF)
  else if s0 =? 0xED then (0x80 <=? s1) && (s1 <=? 0x9F)
  else if s0 =? 0xF0 then (0x90 <=? s1) && (s1 <=? 0xBF)
  else if s0 =? 0xF4 then (0x80 <=? s1) && (s1 <=? 0x8F)
  else cont s1.

(** [DecodeRuneInString]: the rune and its width in bytes; an invalid
    encoding is [RuneError] of width 1, the empty string width 0. *)
Definition DecodeRuneInString (s : list ascii) : Z * nat :=
  match s with
  | [] => (RuneError, 0%nat)
  | c0 :: t =>
      let s0 := byte c0 in
      if s0 <? RuneSelf then (s0, 1%nat)
      else if (s0 <? 0xC2) || (0xF4 <? s0) then (RuneError, 1%nat)
      else
        match t with
        | [] => (RuneError, 1%nat)
        | c1 :: t1 =>
            let s1 := byte c1 in
            if negb (accept s0 s1) then (RuneError, 1%nat)
            else if s0 <? 0xE0 then
              (Z.lor (Z.shiftl (Z.land s0 0x1F) 6) (Z.land s1 0x3F), 2%nat)
            else
              match t1 with
              | [] => (RuneError, 1%nat)
              | c2 :: t2 =>
                  let s2 := byte c2 in
                  if negb (cont s2) then (RuneError, 1%nat)
                  else if s0 <? 0xF0 then
                    (Z.lor (Z.shiftl (Z.land s0 0x0F) 12)
                       (Z.lor (Z.shiftl (Z.land s1 0x3F) 6) (Z.land s2 0x3F)),
                     3%nat)
                  else
                    match t2 with
                    | [] => (RuneError, 1%nat)
                    | c3 :: _ =>
                        let s3 := byte c3 in
                        if negb (cont s3) then (RuneError, 1%nat)
                        else
                          (Z.lor (Z.shiftl (Z.land s0 0x07) 18)
                             (Z.lor (Z.shiftl (Z.land s1 0x3F) 12)
                                (Z.lor (Z.shiftl (Z.land s2 0x3F) 6)
                                   (Z.land s3 0x3F))),
                           4%nat)
                    end
              end
        end
  end.
End utf8.

(** unicode: the White_Space property. *)
Module unicode.
Definition MaxLatin1 : Z := 0xFF.

Definition IsSpace (r : Z) : bool :=
  if r <=? MaxLatin1 then
    (r =? 0x09) || (r =? 0x0A) || (r =? 0x0B) || (r =? 0x0C) || (r =? 0x0D)
    || (r =? 0x20) || (r =? 0x85) || (r =? 0xA0)
  else
    (r =? 0x1680) || ((0x2000 <=? r) && (r <=? 0x200A))
    || (r =? 0x2028) || (r =? 0x2029) || (r =? 0x202F)
    || (r =? 0x205F) || (r =? 0x3000).
End unicode.

(** slices *)
Module slices.
Fixpoint Contains (s : list string) (v : string) : bool :=
  match s with
  | [] => false
  | x :: rest => if String.eqb x v then true else Contains rest v
  end.
End slices.

(** strings *)
Module strings.
(** [for i, r := range s]: the byte index and the rune of every
    iteration; [skip] counts the bytes of the current rune still to
    be passed over. *)
Fixpoint range_from (s : list ascii) (skip pos : nat) : list (nat * Z) :=
  match s with
  | [] => []
  | _ :: t =>
      match skip with
      | S k => range_from t k (S pos)
      | O =>
          let '(r, w) := utf8.DecodeRuneInString s in
          (pos, r) :: range_from t (w - 1) (S pos)
      end
  end.

Definition range (s : string) : list (nat * Z) :=
  range_from (list_ascii_of_string s) 0 0.

(** One iteration of the loop of [FieldsFunc]: [start] is the start
    of the field being read, if any. *)
Definition fields_step (f : Z -> bool)
    (acc : list (nat * nat) * option nat) (it : nat * Z)
    : list (nat * nat) * option nat :=
  let '(spans, start) := acc in
  let '(end_, rune) := it in
  if f rune then
    match start with
    | Some st => (spans ++ [(st, end_)], None)
    | None => (spans, None)
    end
  else
    match start with
    | Some _ => (spans, start)
    | None => (spans, Some end_)
    end.

Definition FieldsFunc (s : string) (f : Z -> bool) : list string :=
  let '(spans, start) := fold_left (fields_step f) (range s) ([], None) in
  let spans :=
    match start with
    | Some st => spans ++ [(st, String.length s)]   (* last field ends at EOF *)
    | None => spans
    end in
  map (fun '(a, b) => substring a (b - a) s) spans.

(** [Fields] splits around each run of white space characters, as
    defined by [unicode.IsSpace]. *)
Definition Fields (s : string) : list string := FieldsFunc s unicode.IsSpace.

(** The six bytes of [asciiSpace]. *)
Definition asciiSpace (c : ascii) : bool :=
  let b := utf8.byte c in
  (b =? 0x09) || (b =? 0x0A) || (b =? 0x0B) || (b =? 0x0C) || (b =? 0x0D) || (b =? 0x20).

Fixpoint trim_left (s : list ascii) : list ascii :=
  match s with
  | c :: t => if asciiSpace c then trim_left t else s
  | [] => []
  end.

(** [TrimSpace], on the ASCII strings it is applied to here: leading,
    then trailing white space bytes are dropped. *)
Definition TrimSpace (s : string) : string :=
  string_of_list_ascii
    (rev (trim_left (rev (trim_left (list_ascii_of_string s))))).
End strings.

(** net/url: [url.Values] is [map[string][]string]. *)
Module url.
Definition Has (v : gmap string (list string)) (key : string) : bool :=
  bool_decide (is_Some (v !! key)).

Definition Get (v : gmap string (list string)) (key : string) : string :=
  match v !! key with
  | Some (x :: _) => x
  | _ => ""
  end.
End url.

(** regexp, as an interface: [regexp.Compile] and [Regexp.MatchString]
    with the contract the package documents.  [MatchString] reports
    whether the string contains any match of the expression;
    [match_at re s i j] reads "[re] matches the bytes [i..j) of [s]";
    the empty pattern compiles and matches the empty string. *)
Class RegexpLib := {
  Regexp : Type;
  Compile : string -> Regexp + string;
  MatchString : Regexp -> string -> bool;
  match_at : Regexp -> string -> nat -> nat -> Prop;
  MatchString_spec : forall re s,
    MatchString re s = true <->
    exists i j, (i <= j <= String.length s)%nat /\ match_at re s i j;
  Compile_empty : exists re, Compile "" = inl re /\ forall s, match_at re s 0 0
}.

(** ** Data model of the two feed libraries

    Only the fields [main.go] reads or sets are kept; every other field
    of the library structs keeps its zero value throughout. *)

(** [time.Time]: copied, never inspected. *)
Definition Time := Z.

(** github.com/mmcdole/gofeed: the parsed source feed. *)
Module gofeed.
Module Person.
Record t := { Name : string; Email : string }.
End Person.
Module Item.
Record t := {
  Title : string;
  Description : string;
  Link : string;
  Author : option Person.t;          (* *Person, nil when absent *)
  PublishedParsed : option Time      (* *time.Time, nil when absent *)
}.
End Item.
Module Feed.
Record t := {
  Title : string;
  Description : string;
  Link : string;
  Author : option Person.t;
  Items : list Item.t
}.
End Feed.
End gofeed.

(** github.com/gorilla/feeds: the feed handed to the RSS encoder. *)
Module feeds.
Module Link.
Record t := { Href : string }.
End Link.
Module Author.
Record t := { Name : string; Email : string }.
End Author.
Module Item.
Record t := {
  Title : string;
  Link : option Link.t;
  Description : string;
  Author : option Author.t;
  Created : Time
}.
End Item.
Module Feed.
Record t := {
  Title : string;
  Link : option Link.t;
  Description : string;
  Author : option Author.t;
  Created : Time;
  Items : list Item.t
}.
End Feed.
End feeds.

(** ** The handler monad: response writer, effect trace, panics *)

(** [http.ResponseWriter]: the status line is fixed by the first
    [WriteHeader] (or by the first [Write], as 200). *)
Record ResponseWriter := {
  header : gmap string string;
  status : option Z;
  body : string
}.

Definition newResponse : ResponseWriter :=
  {| header := ∅; status := None; body := "" |}.

(** What a request did to the outside world. *)
Inductive event :=
| EvFetch (url : string)
| EvWriteRss (f : feeds.Feed.t).

Record state := { resp : ResponseWriter; trace : list event }.

Definition initial : state := {| resp := newResponse; trace := [] |}.

(** A run-time panic of the Go program. *)
Inductive panic :=
| NilDereference (expr : string).

Inductive outcome (A : Type) :=
| Done (a : A) (s : state)
| Panicked (p : panic) (s : state).
Arguments Done {A} a s.
Arguments Panicked {A} p s.

Definition M (A : Type) := state -> outcome A.

#[export] Instance M_ret : MRet M := fun A (a : A) s => Done a s.

#[export] Instance M_bind : MBind M := fun A B (k : A -> M B) (m : M A) s =>
  match m s with
  | Done a s' => k a s'
  | Panicked p s' => Panicked p s'
  end.

Definition modify_resp (f : ResponseWriter -> ResponseWriter) : M unit :=
  fun s => Done tt {| resp := f (resp s); trace := trace s |}.

Definition emit (e : event) : M unit :=
  fun s => Done tt {| resp := resp s; trace := trace s ++ [e] |}.

(** [p.field] or [*p] on a pointer: panics on nil. *)
Definition deref {A} (expr : string) (p : option A) : M A :=
  fun s => match p with
           | Some a => Done a s
           | None => Panicked (NilDereference expr) s
           end.

(** *** net/http response primitives *)

Definition WriteHeader (code : Z) (w : ResponseWriter) : ResponseWriter :=
  match status w with
  | Some _ => w                      (* superfluous call: ignored *)
  | None => {| header := header w; status := Some code; body := body w |}
  end.

Definition Write (b : string) (w : ResponseWriter) : ResponseWriter :=
  let w' := WriteHeader 200 w in
  {| header := header w'; status := status w'; body := body w' +:+ b |}.

(** [http.Error(w, msg, code)]. *)
Definition http_Error (msg : string) (code : Z) (w : ResponseWriter) : ResponseWriter :=
  let h := <["X-Content-Type-Options" := "nosniff"]>
           (<["Content-Type" := "text/plain; charset=utf-8"]>
            (delete "Content-Length" (header w))) in
  Write (msg +:+ newline)
    (WriteHeader code {| header := h; status := status w; body := body w |}).

Definition StatusBadRequest : Z := 400.
Definition StatusInternalServerError : Z := 500.

(** ** The world a request runs in *)

Record World := {
  now : Time;                                         (* time.Now() *)
  ParseURL : string -> gofeed.Feed.t + string;        (* gofeed.NewParser().ParseURL *)
  RssBytes : feeds.Feed.t -> string * option string;  (* bytes WriteRss emits, its error *)
  indexHTML : string                                  (* //go:embed index.html *)
}.

(** ** writeFilteredRSS (main.go, lines 86-115) *)

Definition append_item (f : feeds.Feed.t) (it : feeds.Item.t) : feeds.Feed.t :=
  {| feeds.Feed.Title := feeds.Feed.Title f;
     feeds.Feed.Link := feeds.Feed.Link f;
     feeds.Feed.Description := feeds.Feed.Description f;
     feeds.Feed.Author := feeds.Feed.Author f;
     feeds.Feed.Created := feeds.Feed.Created f;
     feeds.Feed.Items := feeds.Feed.Items f ++ [it] |}.

(** Lines 101-112: the loop over [originalFeed.Items].  The fields of
    the item literal are evaluated in order, [item.Author.Name] before
    [*item.PublishedParsed]. *)
Fixpoint range_items (keepItem : string -> bool) (items : list gofeed.Item.t)
    (filteredFeed : feeds.Feed.t) : M feeds.Feed.t :=
  match items with
  | [] => mret filteredFeed
  | item :: rest =>
      let keep := keepItem (gofeed.Item.Title item) in
      if keep then
        author ← deref "item.Author" (gofeed.Item.Author item);
        created ← deref "item.PublishedParsed" (gofeed.Item.PublishedParsed item);
        range_items keepItem rest
          (append_item filteredFeed
             {| feeds.Item.Title := gofeed.Item.Title item;
                feeds.Item.Link := Some {| feeds.Link.Href := gofeed.Item.Link item |};
                feeds.Item.Description := gofeed.Item.Description item;
                feeds.Item.Author :=
                  Some {| feeds.Author.Name := gofeed.Person.Name author;
                          feeds.Author.Email := gofeed.Person.Email author |};
                feeds.Item.Created := created |})
      else range_items keepItem rest filteredFeed
  end.

Section Transform.
Variable W : World.

(** Lines 92-100: the feed-level copy. *)
Definition feed_header (originalFeed : gofeed.Feed.t) : feeds.Feed.t :=
  {| feeds.Feed.Title := gofeed.Feed.Title originalFeed;
     feeds.Feed.Link := Some {| feeds.Link.Href := gofeed.Feed.Link originalFeed |};
     feeds.Feed.Description := gofeed.Feed.Description originalFeed;
     feeds.Feed.Author :=
       match gofeed.Feed.Author originalFeed with
       | Some a => Some {| feeds.Author.Name := gofeed.Person.Name a;
                           feeds.Author.Email := gofeed.Person.Email a |}
       | None => None
       end;
     feeds.Feed.Created := now W;
     feeds.Feed.Items := [] |}.

(** [filteredFeed.WriteRss(w)]: the encoder writes what it can and
    returns its error. *)
Definition WriteRss (f : feeds.Feed.t) : M (option string) :=
  emit (EvWriteRss f);;
  let '(bytes, err) := RssBytes W f in
  (if String.eqb bytes "" then mret tt else modify_resp (Write bytes));;
  mret err.

Definition writeFilteredRSS (keepItem : string -> bool) (rssURL : string)
    : M (option string) :=
  emit (EvFetch rssURL);;
  match ParseURL W rssURL with
  | inr err => mret (Some err)
  | inl originalFeed =>
      filteredFeed ← range_items keepItem (gofeed.Feed.Items originalFeed)
                       (feed_header originalFeed);
      WriteRss filteredFeed
  end.

End Transform.

(** ** indexHandler (main.go, lines 44-84) *)

(** Lines 61-68: the skip-word predicate. *)
Fixpoint skip_loop (skips : list string) (words : list string) : bool :=
  match words with
  | [] => true
  | word :: rest =>
      if slices.Contains skips word then false else skip_loop skips rest
  end.

Definition keepItem_skip (skips : list string) (contents : string) : bool :=
  skip_loop skips (strings.Fields contents).

Section Handler.
Context {L : RegexpLib}.
Variable W : World.

(** Lines 51-72: the value of [keepItem], or the text of the 400
    response. *)
Definition keepItem_of (query : gmap string (list string))
    : (string -> bool) + string :=
  if url.Has query "re" then
    let pattern := url.Get query "re" in
    match Compile pattern with
    | inr err => inr err
    | inl regex => inl (MatchString regex)
    end
  else
    match query !! "skip" with
    | Some skips => inl (keepItem_skip skips)
    | None => inr "missing 'skip' or 're'"
    end.

Definition indexHandler (query : gmap string (list string)) : M unit :=
  if decide (size query = 0%nat) then
    modify_resp (Write (indexHTML W))
  else
    match keepItem_of query with
    | inr msg => modify_resp (http_Error msg StatusBadRequest)
    | inl keepItem =>
        if negb (url.Has query "url") then
          modify_resp (http_Error "missing 'url'" StatusBadRequest)
        else
          let rssURL := url.Get query "url" in
          err ← writeFilteredRSS W keepItem rssURL;
          match err with
          | Some e => modify_resp (http_Error e StatusInternalServerError)
          | None => mret tt
          end
    end.

End Handler.

(** ** statusHandler (main.go, lines 117-142) *)

Definition statusPattern : string :=
  strings.TrimSpace (newline +:+
    "CPU used:" +:+ tab +:+ "%.2f%%" +:+ newline +:+
    "RAM used:" +:+ tab +:+ "%d / %d / %d MB (%.0f%%)" +:+ newline +:+
    "Goroutines:" +:+ tab +:+ "%d" +:+ newline).

(** Decimal rendering of an integer ([%d]). *)
Definition decimal (n : Z) : string :=
  DecimalString.NilZero.string_of_int (Z.to_int n).

Definition digit_of (c : ascii) : option nat :=
  let b := nat_of_ascii c in
  if ((48 <=? b) && (b <=? 57))%nat then Some (b - 48)%nat else None.

Section Status.
(** [float64] and the rendering of [%.Nf] stay abstract. *)
Variable float64 : Type.
Variable float_zero : float64.
Variable FormatFloat : nat -> float64 -> string.

Inductive arg :=
| ArgFloat (x : float64)
| ArgInt (n : Z).

(** [fmt.Sprintf] for the verbs of [statusPattern]: [%%], [%d] and
    [%.Nf] with a one-digit precision.  [None] stands for every
    format or operand outside this fragment. *)
Fixpoint Sprintf (format : list ascii) (args : list arg) : option string :=
  match format with
  | [] => match args with [] => Some "" | _ :: _ => None end
  | "%"%char :: "%"%char :: rest =>
      s ← Sprintf rest args; Some ("%" +:+ s)
  | "%"%char :: "d"%char :: rest =>
      match args with
      | ArgInt n :: args' => s ← Sprintf rest args'; Some (decimal n +:+ s)
      | _ => None
      end
  | "%"%char :: "."%char :: p :: "f"%char :: rest =>
      match digit_of p, args with
      | Some prec, ArgFloat x :: args' =>
          s ← Sprintf rest args'; Some (FormatFloat prec x +:+ s)
      | _, _ => None
      end
  | "%"%char :: _ => None
  | c :: rest => s ← Sprintf rest args; Some (String c s)
  end.

(** gopsutil's [mem.VirtualMemoryStat]. *)
Record VirtualMemoryStat := {
  Total : Z;                (* uint64 *)
  Used : Z;                 (* uint64 *)
  UsedPercent : float64
}.

(** What the handler reads from the host. *)
Record Host := {
  cpu_Percent : list float64;                     (* cpu.Percent(0, false) *)
  Alloc : Z;                                      (* goMem.Alloc, uint64 *)
  mem_VirtualMemory : option VirtualMemoryStat;   (* nil on error *)
  NumGoroutine : Z
}.

(** The operands of [Fprintf], lines 137-141; unsigned division
    truncates and cannot overflow. *)
Definition status_args (h : Host) : M (list arg) :=
  let cpuUsage :=
    match cpu_Percent h with
    | x :: _ => x
    | [] => float_zero
    end in
  sysMem ← deref "sysMem" (mem_VirtualMemory h);
  mret [ ArgFloat cpuUsage;
         ArgInt (Alloc h / 1024 / 1024);
         ArgInt (Used sysMem / 1024 / 1024 / 1024);
         ArgInt (Total sysMem / 1024 / 1024 / 1024);
         ArgFloat (UsedPercent sysMem);
         ArgInt (NumGoroutine h) ].

Definition statusHandler (h : Host) : M unit :=
  args ← status_args h;
  match Sprintf (list_ascii_of_string statusPattern) args with
  | Some text => modify_resp (Write text)
  | None => mret tt
  end.

End Status.

Arguments ArgFloat {float64} x.
Arguments ArgInt {float64} n.
Arguments Sprintf {float64} FormatFloat format args.
Arguments Total {float64} v.
Arguments Used {float64} v.
Arguments UsedPercent {float64} v.
Arguments cpu_Percent {float64} h.
Arguments Alloc {float64} h.
Arguments mem_VirtualMemory {float64} h.
Arguments NumGoroutine {float64} h.
Arguments status_args {float64} float_zero h.
Arguments statusHandler {float64} float_zero FormatFloat h.

(** ** A small implementation of the regexp interface

    A matcher for a fragment of the pattern syntax: literal bytes, [.],
    grouping, alternation, the postfix operators, [^] and [$] (beginning
    and end of text).  Every other pattern is rejected.  It shows that
    [RegexpLib] is inhabited and runs the scenarios. *)
Module MiniRegexp.

Inductive re :=
| Eps
| Chr (c : ascii)
| AnyChar
| Bol
| Eol
| Cat (a b : re)
| Alt (a b : re)
| Star (a : re).

(** Zero or more consecutive matches of [f] covering [i..j); every
    iteration but an empty last one consumes a byte. *)
Fixpoint star_iter (f : nat -> nat -> bool) (fuel i j : nat) : bool :=
  (i =? j)%nat ||
  match fuel with
  | O => false
  | S n => existsb (fun k => f i k && star_iter f n k j) (seq (S i) (j - i))
  end.

(** [span s r i j]: [r] matches the bytes [i..j) of [s]. *)
Fixpoint span (s : list ascii) (r : re) (i j : nat) : bool :=
  match r with
  | Eps => (i =? j)%nat
  | Chr c =>
      (S i =? j)%nat &&
      match nth_error s i with
      | Some c' => Ascii.eqb c c'
      | None => false
      end
  | AnyChar =>
      let '(r, w) := utf8.DecodeRuneInString (drop i s) in
      (0 <? w)%nat && negb (r =? 0x0A) && (j =? i + w)%nat
  | Bol => (i =? 0)%nat && (j =? 0)%nat
  | Eol => (i =? length s)%nat && (j =? length s)%nat
  | Cat a b => existsb (fun k => span s a i k && span s b k j) (seq i (S (j - i)))
  | Alt a b => span s a i j || span s b i j
  | Star a => star_iter (span s a) (j - i) i j
  end.

Definition search (s : list ascii) (r : re) : bool :=
  existsb (fun i => existsb (fun j => span s r i j) (seq i (S (length s - i))))
    (seq 0 (S (length s))).

(** Postfix operators after an atom. *)
Fixpoint postfix (a : re) (s : list ascii) : re * list ascii :=
  match s with
  | "*"%char :: t => postfix (Star a) t
  | "+"%char :: t => postfix (Cat a (Star a)) t
  | "?"%char :: t => postfix (Alt a Eps) t
  | _ => (a, s)
  end.

Definition is_meta (c : ascii) : bool :=
  existsb (Ascii.eqb c) (list_ascii_of_string "\.+*?()|[]{}^$").

Fixpoint parse_alt (fuel : nat) (s : list ascii) : re * list ascii + string :=
  match fuel with
  | O => inr "expression nests too deeply"
  | S n =>
      match parse_cat n s with
      | inr e => inr e
      | inl (a, "|"%char :: t) =>
          match parse_alt n t with
          | inl (b, t') => inl (Alt a b, t')
          | inr e => inr e
          end
      | inl (a, t) => inl (a, t)
      end
  end
with parse_cat (fuel : nat) (s : list ascii) : re * list ascii + string :=
  match fuel with
  | O => inr "expression nests too deeply"
  | S n =>
      match s with
      | [] => inl (Eps, s)
      | "|"%char :: _ => inl (Eps, s)
      | ")"%char :: _ => inl (Eps, s)
      | _ =>
          match parse_atom n s with
          | inr e => inr e
          | inl (a, t) =>
              let '(a', t') := postfix a t in
              match parse_cat n t' with
              | inl (Eps, t'') => inl (a', t'')
              | inl (b, t'') => inl (Cat a' b, t'')
              | inr e => inr e
              end
          end
      end
  end
with parse_atom (fuel : nat) (s : list ascii) : re * list ascii + string :=
  match fuel with
  | O => inr "expression nests too deeply"
  | S n =>
      match s with
      | [] => inr "missing argument"
      | "("%char :: t =>
          match parse_alt n t with
          | inl (r, ")"%char :: t') => inl (r, t')
          | inl _ => inr "missing closing )"
          | inr e => inr e
          end
      | "^"%char :: t => inl (Bol, t)
      | "$"%char :: t => inl (Eol, t)
      | "."%char :: t => inl (AnyChar, t)
      | "\"%char :: c :: t =>
          if is_meta c then inl (Chr c, t) else inr "invalid escape sequence"
      | "\"%char :: [] => inr "trailing backslash at end of expression"
      | c :: t =>
          if is_meta c then
            if Ascii.eqb c "*" || Ascii.eqb c "+" || Ascii.eqb c "?"
            then inr "missing argument to repetition operator"
            else inr "syntax outside the fragment"
          else inl (Chr c, t)
      end
  end.

Definition compile (pattern : string) : re + string :=
  let s := list_ascii_of_string pattern in
  let report e := inr ("error parsing regexp: " +:+ e +:+ ": `" +:+ pattern +:+ "`") in
  match parse_alt (3 * length s + 3) s with
  | inl (r, []) => inl r
  | inl (_, _ :: _) => report "unexpected )"
  | inr e => report e
  end.

Definition matchString (r : re) (s : string) : bool :=
  search (list_ascii_of_string s) r.

End MiniRegexp.

(** ** Notions the properties are stated with *)

(** The characters of a Go string, as [for range] decodes them: each
    rune with the bytes that encode it. *)
Fixpoint runes_from (s : list ascii) (skip : nat) : list (Z * list ascii) :=
  match s with
  | [] => []
  | _ :: t =>
      match skip with
      | S k => runes_from t k
      | O =>
          let '(r, w) := utf8.DecodeRuneInString s in
          (r, take w s) :: runes_from t (w - 1)
      end
  end.

Definition runes (s : string) : list (Z * list ascii) :=
  runes_from (list_ascii_of_string s) 0.

Definition bytes_of (cs : list (Z * list ascii)) : list ascii := concat (map snd cs).

Definition text_of (cs : list (Z * list ascii)) : string :=
  string_of_list_ascii (bytes_of cs).

(** White space, or the end of the title, comes next. *)
Definition space_follows (post : list (Z * list ascii)) : Prop :=
  post = [] \/ exists c, head post = Some c /\ unicode.IsSpace (fst c) = true.

(** White space, or the start of the title, comes just before. *)
Definition space_precedes (pre : list (Z * list ascii)) : Prop :=
  pre = [] \/ exists c, last pre = Some c /\ unicode.IsSpace (fst c) = true.

(** A whitespace-delimited token of [title]: a non-empty run of
    characters that are not white space, with white space or the
    boundary of the title on either side. *)
Definition is_token (title tok : string) : Prop :=
  exists pre mid post,
    runes title = pre ++ mid ++ post /\
    tok = text_of mid /\
    mid <> [] /\
    Forall (fun c => unicode.IsSpace (fst c) = false) mid /\
    space_precedes pre /\
    space_follows post.

(** The byte offset at which each character starts. *)
Fixpoint positions (pos : nat) (cs : list (Z * list ascii)) : list (nat * Z) :=
  match cs with
  | [] => []
  | (r, b) :: t => (pos, r) :: positions (pos + length b) t
  end.

(** Splitting a sequence of characters at its runs of white space;
    [cur] holds the characters of the field being read. *)
Fixpoint split_chunks (cs cur : list (Z * list ascii)) : list (list (Z * list ascii)) :=
  match cs with
  | [] => match cur with [] => [] | _ :: _ => [cur] end
  | c :: t =>
      if unicode.IsSpace (fst c) then
        match cur with [] => [] | _ :: _ => [cur] end ++ split_chunks t []
      else split_chunks t (cur ++ [c])
  end.

(** The output item that lines 104-110 build from a source item. *)
Definition projects (src : gofeed.Item.t) (dst : feeds.Item.t) : Prop :=
  feeds.Item.Title dst = gofeed.Item.Title src /\
  feeds.Item.Link dst = Some {| feeds.Link.Href := gofeed.Item.Link src |} /\
  feeds.Item.Description dst = gofeed.Item.Description src /\
  (exists a, gofeed.Item.Author src = Some a /\
     feeds.Item.Author dst =
       Some {| feeds.Author.Name := gofeed.Person.Name a;
               feeds.Author.Email := gofeed.Person.Email a |}) /\
  gofeed.Item.PublishedParsed src = Some (feeds.Item.Created dst).

(** A source item the loop can copy: author and publication time present. *)
Definition complete (src : gofeed.Item.t) : Prop :=
  is_Some (gofeed.Item.Author src) /\ is_Some (gofeed.Item.PublishedParsed src).

(** The items of [I] whose title satisfies the predicate. *)
Definition kept (keepItem : string -> bool) (I : list gofeed.Item.t) : list gofeed.Item.t :=
  filter (fun it => keepItem (gofeed.Item.Title it) = true) I.

(** The state a run ends in, the feeds it handed to the encoder, and
    the URLs it fetched. *)
Definition final {A} (o : outcome A) : state :=
  match o with
  | Done _ s => s
  | Panicked _ s => s
  end.

Definition encoded (s : state) : list feeds.Feed.t :=
  omap (fun e => match e with EvWriteRss f => Some f | EvFetch _ => None end) (trace s).

Definition fetched (s : state) : list string :=
  omap (fun e => match e with EvFetch u => Some u | EvWriteRss _ => None end) (trace s).

(** The state after the fetch, and after the encoder has run. *)
Definition after_fetch (rssURL : string) (s : state) : state :=
  {| resp := resp s; trace := trace s ++ [EvFetch rssURL] |}.

Definition after_encode (W : World) (out : feeds.Feed.t) (s : state) : state :=
  {| resp := if String.eqb (RssBytes W out).1 "" then resp s
             else Write (RssBytes W out).1 (resp s);
     trace := trace s ++ [EvWriteRss out] |}.

(** [needle] occurs in [s], as a proposition and as a test. *)
Definition mentions (s needle : string) : Prop :=
  exists pre post, s = pre +:+ needle +:+ post.

Fixpoint starts_with (needle s : string) : bool :=
  match needle, s with
  | EmptyString, _ => true
  | String a n', String b s' => Ascii.eqb a b && starts_with n' s'
  | String _ _, EmptyString => false
  end.

Fixpoint occurs_in (needle s : string) : bool :=
  starts_with needle s ||
  match s with
  | String _ s' => occurs_in needle s'
  | EmptyString => false
  end.

(** The report of the status endpoint, given its six rendered fields. *)
Definition status_text (cpu : string) (process used total : Z) (percent : string)
    (goroutines : Z) : string :=
  "CPU used:" +:+ tab +:+ cpu +:+ "%" +:+ newline +:+
  "RAM used:" +:+ tab +:+ decimal process +:+ " / " +:+ decimal used +:+ " / "
    +:+ decimal total +:+ " MB (" +:+ percent +:+ "%)" +:+ newline +:+
  "Goroutines:" +:+ tab +:+ decimal goroutines.

(** The report as the specification words it: each of the three raw
    byte counts divided by 1024 twice. *)
Definition status_text_in_megabytes (cpu : string) (alloc used total : Z)
    (percent : string) (goroutines : Z) : string :=
  status_text cpu (alloc / 1024 / 1024) (used / 1024 / 1024) (total / 1024 / 1024)
    percent goroutines.

(** The ways [indexHandler] can end, from a fresh response: the outcome
    of each path through lines 44-84 and 86-115. *)
Section Answers.
Context {L : RegexpLib}.
Variable W : World.
Variable query : gmap string (list string).

(** Validation has passed (lines 51-77): the predicate is built and
    [url] is present. *)
Definition validated (keepItem : string -> bool) : Prop :=
  keepItem_of query = inl keepItem /\ url.Has query "url" = true.

Inductive answer : outcome unit -> Prop :=
| LandingPage :
    size query = 0%nat ->
    answer (Done tt {| resp := Write (indexHTML W) newResponse; trace := [] |})
| BadFilter (msg : string) :
    size query <> 0%nat ->
    keepItem_of query = inr msg ->
    answer (Done tt {| resp := http_Error msg StatusBadRequest newResponse;
                       trace := [] |})
| MissingURL (keepItem : string -> bool) :
    size query <> 0%nat ->
    keepItem_of query = inl keepItem ->
    url.Has query "url" = false ->
    answer (Done tt {| resp := http_Error "missing 'url'" StatusBadRequest newResponse;
                       trace := [] |})
| FetchFailed (keepItem : string -> bool) (err : string) :
    validated keepItem ->
    ParseURL W (url.Get query "url") = inr err ->
    answer (Done tt {| resp := http_Error err StatusInternalServerError newResponse;
                       trace := [EvFetch (url.Get query "url")] |})
| Crashed (keepItem : string -> bool) (originalFeed : gofeed.Feed.t)
    (it : gofeed.Item.t) (p : panic) :
    validated keepItem ->
    ParseURL W (url.Get query "url") = inl originalFeed ->
    it ∈ kept keepItem (gofeed.Feed.Items originalFeed) ->
    ~ complete it ->
    answer (Panicked p (after_fetch (url.Get query "url") initial))
| Served (keepItem : string -> bool) (originalFeed : gofeed.Feed.t)
    (out : feeds.Feed.t) :
    validated keepItem ->
    ParseURL W (url.Get query "url") = inl originalFeed ->
    Forall2 projects (kept keepItem (gofeed.Feed.Items originalFeed))
      (feeds.Feed.Items out) ->
    (RssBytes W out).2 = None ->
    answer (Done tt (after_encode W out (after_fetch (url.Get query "url") initial)))
| EncoderFailed (keepItem : string -> bool) (originalFeed : gofeed.Feed.t)
    (out : feeds.Feed.t) (err : string) :
    validated keepItem ->
    ParseURL W (url.Get query "url") = inl originalFeed ->
    Forall2 projects (kept keepItem (gofeed.Feed.Items originalFeed))
      (feeds.Feed.Items out) ->
    (RssBytes W out).2 = Some err ->
    answer (Done tt
      {| resp := http_Error err StatusInternalServerError
                   (resp (after_encode W out (after_fetch (url.Get query "url") initial)));
         trace := [EvFetch (url.Get query "url"); EvWriteRss out] |}).

End Answers.

(** A byte of ASCII white space occurs in the word. *)
Definition has_blank (w : string) : Prop :=
  exists c, c ∈ list_ascii_of_string w /\ strings.asciiSpace c = true.

(** The bytes of a decoded character: there is at least one, and a byte
    of ASCII white space among them makes the character white space. *)
Definition plain_bytes (c : Z * list ascii) : Prop :=
  snd c <> [] /\
  forall b, b ∈ snd c -> strings.asciiSpace b = true -> unicode.IsSpace (fst c) = true.

(** Every character of the title is white space. *)
Definition blank (title : string) : Prop :=
  Forall (fun c => unicode.IsSpace (fst c) = true) (runes title).

(** ** Concrete worlds and feeds: the scenarios of the specification *)

Definition alice : gofeed.Person.t :=
  {| gofeed.Person.Name := "Alice"; gofeed.Person.Email := "alice@example.org" |}.

Definition item_titled (title : string) (author : option gofeed.Person.t)
    (published : option Time) : gofeed.Item.t :=
  {| gofeed.Item.Title := title;
     gofeed.Item.Description := "about " +:+ title;
     gofeed.Item.Link := "https://example.org/" +:+ title;
     gofeed.Item.Author := author;
     gofeed.Item.PublishedParsed := published |}.

Definition feed_of (items : list gofeed.Item.t) : gofeed.Feed.t :=
  {| gofeed.Feed.Title := "News";
     gofeed.Feed.Description := "All the news";
     gofeed.Feed.Link := "https://example.org/";
     gofeed.Feed.Author := None;
     gofeed.Feed.Items := items |}.

(** Three items titled "Alpha launch", "Beta recall", "Gamma update". *)
Definition scenario_feed : gofeed.Feed.t :=
  feed_of [ item_titled "Alpha launch" (Some alice) (Some 1700000001);
            item_titled "Beta recall" (Some alice) (Some 1700000002);
            item_titled "Gamma update" (Some alice) (Some 1700000003) ].

(** A feed whose only item has no author, and one whose only item has
    no parsed publication time. *)
Definition authorless_feed : gofeed.Feed.t :=
  feed_of [ item_titled "Alpha launch" None (Some 1700000001) ].

Definition undated_feed : gofeed.Feed.t :=
  feed_of [ item_titled "Alpha launch" (Some alice) None ].

(** A stand-in encoder: the titles between two tags, never failing. *)
Definition titles_xml (f : feeds.Feed.t) : string * option string :=
  ("<rss>" +:+ String.concat "," (map feeds.Item.Title (feeds.Feed.Items f)) +:+ "</rss>",
   None).

(** The network: four URLs, every other one unreachable. *)
Definition example_net (u : string) : gofeed.Feed.t + string :=
  if String.eqb u "https://example.org/feed" then inl scenario_feed
  else if String.eqb u "https://example.org/authorless" then inl authorless_feed
  else if String.eqb u "https://example.org/undated" then inl undated_feed
  else if String.eqb u "https://example.org/gone" then inr "http error: 404 Not Found"
  else inr "no such host".

Definition example_world : World :=
  {| now := 1700000100;
     ParseURL := example_net;
     RssBytes := titles_xml;
     indexHTML := "<html></html>" |}.

(** The same world with an encoder that fails after the opening tag. *)
Definition broken_pipe_world : World :=
  {| now := 1700000100;
     ParseURL := example_net;
     RssBytes := fun _ => ("<rss>", Some "write: broken pipe");
     indexHTML := "<html></html>" |}.

Definition query_of (kvs : list (string * list string)) : gmap string (list string) :=
  list_to_map kvs.

(** A host for the status endpoint.  Floating point values are stood
    for by whole numbers, rendered with zeros after the point. *)
Definition whole_number (prec : nat) (x : Z) : string :=
  match prec with
  | O => decimal x
  | S _ => decimal x +:+ "." +:+ string_of_list_ascii (replicate prec "0"%char)
  end.

Definition example_sysMem : VirtualMemoryStat Z :=
  {| Total := 8 * 1024 * 1024 * 1024;
     Used := 5 * 1024 * 1024 * 1024;
     UsedPercent := 62 |}.

Definition example_host : Host Z :=
  {| cpu_Percent := [12];
     Alloc := 3 * 1024 * 1024;
     mem_VirtualMemory := Some example_sysMem;
     NumGoroutine := 7 |}.

(** * Properties *)

(** ** The handler monad *)

Lemma bind_done {A B} (m : M A) (k : A -> M B) s a s' :
  m s = Done a s' -> (m ≫= k) s = k a s'.
Proof. intros H. unfold mbind, M_bind. by rewrite H. Qed.

Lemma bind_panicked {A B} (m : M A) (k : A -> M B) s p s' :
  m s = Panicked p s' -> (m ≫= k) s = Panicked p s'.
Proof. intros H. unfold mbind, M_bind. by rewrite H. Qed.

Lemma deref_some {A} expr (a : A) s : deref expr (Some a) s = Done a s.
Proof. reflexivity. Qed.

Lemma deref_none {A} expr s :
  deref expr (@None A) s = Panicked (NilDereference expr) s.
Proof. reflexivity. Qed.

(** ** The loop of writeFilteredRSS *)

Lemma kept_cons_true keepItem it I :
  keepItem (gofeed.Item.Title it) = true ->
  kept keepItem (it :: I) = it :: kept keepItem I.
Proof. intros H. unfold kept. by rewrite filter_cons_True. Qed.

Lemma kept_cons_false keepItem it I :
  keepItem (gofeed.Item.Title it) = false ->
  kept keepItem (it :: I) = kept keepItem I.
Proof.
  intros H. unfold kept. rewrite filter_cons_False; [done|]. by rewrite H.
Qed.

(** The loop leaves the response and the trace alone; when it ends it
    has appended one projected item per kept item, in order; when it
    panics, a kept item lacked its author or its publication time. *)
Lemma range_items_outcome keepItem items : forall f s,
  match range_items keepItem items f s with
  | Done out s' =>
      s' = s /\
      exists outs,
        Forall2 projects (kept keepItem items) outs /\
        feeds.Feed.Items out = feeds.Feed.Items f ++ outs /\
        feeds.Feed.Title out = feeds.Feed.Title f /\
        feeds.Feed.Link out = feeds.Feed.Link f /\
        feeds.Feed.Description out = feeds.Feed.Description f /\
        feeds.Feed.Author out = feeds.Feed.Author f /\
        feeds.Feed.Created out = feeds.Feed.Created f
  | Panicked _ s' =>
      s' = s /\ exists it, it ∈ kept keepItem items /\ ~ complete it
  end.
Proof.
  induction items as [|item rest IH]; intros f s; simpl.
  - split; [done|]. exists []. rewrite app_nil_r. split_and!; done.
  - destruct (keepItem (gofeed.Item.Title item)) eqn:Hkeep.
    + rewrite (kept_cons_true _ _ _ Hkeep).
      destruct (gofeed.Item.Author item) as [author|] eqn:Hauthor.
      * rewrite (bind_done _ _ _ _ _ (deref_some _ author s)).
        destruct (gofeed.Item.PublishedParsed item) as [created|] eqn:Hdate.
        -- rewrite (bind_done _ _ _ _ _ (deref_some _ created s)).
           match goal with |- context [range_items _ _ ?g s] => specialize (IH g s) end.
           destruct (range_items _ _ _ s) as [out s'|p s'].
           ++ destruct IH as (-> & outs & Hall & Hitems & Hrest).
              split; [done|].
              match type of Hitems with
              | context [append_item f ?x] => exists (x :: outs)
              end.
              split; [|split; [|exact Hrest]].
              ** constructor; [|exact Hall].
                 unfold projects; simpl. split_and!; try done.
                 exists author. by rewrite Hauthor.
              ** rewrite Hitems. simpl. by rewrite <- app_assoc.
           ++ destruct IH as (-> & it & Hin & Hinc).
              split; [done|]. exists it. split; [by apply list_elem_of_further|done].
        -- rewrite (bind_panicked _ _ _ _ _ (deref_none _ s)).
           split; [done|]. exists item. split; [apply list_elem_of_here|].
           intros [_ [t Ht]]. congruence.
      * rewrite (bind_panicked _ _ _ _ _ (deref_none _ s)).
        split; [done|]. exists item. split; [apply list_elem_of_here|].
        intros [[a Ha] _]. congruence.
    + rewrite (kept_cons_false _ _ _ Hkeep). apply IH.
Qed.

Lemma range_items_total keepItem items f s :
  Forall complete (kept keepItem items) ->
  exists out, range_items keepItem items f s = Done out s.
Proof.
  intros Hall. pose proof (range_items_outcome keepItem items f s) as H.
  destruct (range_items keepItem items f s) as [out s'|p s'].
  - destruct H as [-> _]. by exists out.
  - destruct H as (_ & it & Hin & Hinc).
    rewrite Forall_forall in Hall. destruct Hinc. by apply Hall.
Qed.

(** ** writeFilteredRSS *)

Lemma WriteRss_run W out s :
  WriteRss W out s = Done (RssBytes W out).2 (after_encode W out s).
Proof.
  unfold WriteRss, after_encode, mbind, M_bind, emit, modify_resp, mret, M_ret.
  simpl. destruct (RssBytes W out) as [bytes err]. simpl.
  by destruct (String.eqb bytes "").
Qed.

Lemma writeFilteredRSS_fetch_error W keepItem rssURL s err :
  ParseURL W rssURL = inr err ->
  writeFilteredRSS W keepItem rssURL s = Done (Some err) (after_fetch rssURL s).
Proof.
  intros H. unfold writeFilteredRSS, mbind, M_bind, emit. simpl. by rewrite H.
Qed.

Lemma writeFilteredRSS_parsed W keepItem rssURL s originalFeed :
  ParseURL W rssURL = inl originalFeed ->
  writeFilteredRSS W keepItem rssURL s =
  match range_items keepItem (gofeed.Feed.Items originalFeed)
          (feed_header W originalFeed) (after_fetch rssURL s) with
  | Done out s' => Done (RssBytes W out).2 (after_encode W out s')
  | Panicked p s' => Panicked p s'
  end.
Proof.
  intros H. unfold writeFilteredRSS. unfold mbind at 1, M_bind at 1, emit.
  simpl. rewrite H. unfold mbind, M_bind, after_fetch.
  destruct (range_items _ _ _ _); [apply WriteRss_run|done].
Qed.

Lemma encoded_after_fetch rssURL s : encoded (after_fetch rssURL s) = encoded s.
Proof.
  unfold encoded, after_fetch. simpl. rewrite omap_app. simpl. by rewrite app_nil_r.
Qed.

Lemma encoded_after_encode W out s : encoded (after_encode W out s) = encoded s ++ [out].
Proof. unfold encoded, after_encode. simpl. by rewrite omap_app. Qed.

(** What writeFilteredRSS hands to the encoder, on a parsed feed. *)
Lemma filtered_items_spec (W : World) (keepItem : string -> bool)
    (rssURL : string) (originalFeed : gofeed.Feed.t) (s : state) :
  ParseURL W rssURL = inl originalFeed ->
  let I := gofeed.Feed.Items originalFeed in
  let run := writeFilteredRSS W keepItem rssURL s in
  encoded s = [] ->
  (forall out, out ∈ encoded (final run) ->
     Forall2 projects (kept keepItem I) (feeds.Feed.Items out)) /\
  (Forall complete (kept keepItem I) ->
     exists out err s', run = Done err s' /\ encoded s' = [out]).
Proof.
  intros Hparse I run Hs. split.
  - intros out Hout. subst run.
    rewrite (writeFilteredRSS_parsed _ _ _ _ _ Hparse) in Hout.
    pose proof (range_items_outcome keepItem I (feed_header W originalFeed)
                  (after_fetch rssURL s)) as Hloop.
    fold I in Hout.
    destruct (range_items keepItem I _ _) as [out' s'|p s']; simpl in Hout.
    + destruct Hloop as (-> & outs & Hall & Hitems & _).
      rewrite encoded_after_encode, encoded_after_fetch, Hs in Hout.
      apply list_elem_of_singleton in Hout as ->.
      simpl in Hitems. by rewrite Hitems.
    + destruct Hloop as (-> & _).
      rewrite encoded_after_fetch, Hs in Hout. by apply elem_of_nil in Hout.
  - intros Hall. subst run. rewrite (writeFilteredRSS_parsed _ _ _ _ _ Hparse).
    destruct (range_items_total keepItem I (feed_header W originalFeed)
                (after_fetch rssURL s) Hall) as [out Hout].
    fold I. rewrite Hout. eexists out, _, _. split; [done|].
    by rewrite encoded_after_encode, encoded_after_fetch, Hs.
Qed.

(** C1. For every source feed with item list [I] and every predicate,
    a feed that writeFilteredRSS hands to the encoder has as its items
    exactly the items of [I] whose title satisfies the predicate, each
    projected to an output item, in the original order: the kept items
    are a subsequence of [I] (nothing inserted, no position used twice,
    so no duplicates unless [I] has them), and the output is no longer
    than [I].  The transform does reach the encoder whenever every kept
    item carries its author and publication time. *)
Theorem filtered_items_exact (W : World) (keepItem : string -> bool)
    (rssURL : string) (originalFeed : gofeed.Feed.t) :
  ParseURL W rssURL = inl originalFeed ->
  let I := gofeed.Feed.Items originalFeed in
  let run := writeFilteredRSS W keepItem rssURL initial in
  (forall out, out ∈ encoded (final run) ->
     Forall2 projects (kept keepItem I) (feeds.Feed.Items out) /\
     (length (feeds.Feed.Items out) <= length I)%nat) /\
  sublist (kept keepItem I) I /\
  (forall it, it ∈ kept keepItem I <-> it ∈ I /\ keepItem (gofeed.Item.Title it) = true) /\
  (NoDup I -> NoDup (kept keepItem I)) /\
  (Forall complete (kept keepItem I) ->
     exists out err s', run = Done err s' /\ encoded s' = [out]).
Proof.
  intros Hparse I run.
  assert (Hsub : sublist (kept keepItem I) I) by apply sublist_filter.
  destruct (filtered_items_spec W keepItem rssURL originalFeed initial Hparse eq_refl)
    as [Hsafe Hlive].
  split_and!; try done.
  - intros out Hout. specialize (Hsafe out Hout). split; [done|].
    rewrite <- (Forall2_length _ _ _ Hsafe). by apply sublist_length.
  - intros it. unfold kept. by rewrite list_elem_of_filter, (comm and).
  - intros Hnd. by eapply sublist_NoDup.
Qed.

Lemma filtered_items_exact_witness :
  let W := example_world in
  let keepItem := keepItem_skip ["recall"] in
  let rssURL := "https://example.org/feed" in
  ParseURL W rssURL = inl scenario_feed /\
  let I := gofeed.Feed.Items scenario_feed in
  let run := writeFilteredRSS W keepItem rssURL initial in
  (forall out, out ∈ encoded (final run) ->
     Forall2 projects (kept keepItem I) (feeds.Feed.Items out) /\
     (length (feeds.Feed.Items out) <= length I)%nat) /\
  sublist (kept keepItem I) I /\
  (forall it, it ∈ kept keepItem I <-> it ∈ I /\ keepItem (gofeed.Item.Title it) = true) /\
  (NoDup I -> NoDup (kept keepItem I)) /\
  (Forall complete (kept keepItem I) ->
     exists out err s', run = Done err s' /\ encoded s' = [out]).
Proof.
  split; [reflexivity|].
  exact (filtered_items_exact example_world (keepItem_skip ["recall"])
           "https://example.org/feed" scenario_feed eq_refl).
Defined.

(** The scenario of the specification: skipping "recall" keeps Alpha
    and Gamma, in that order. *)
Example scenario_skip_recall :
  exists s' out,
    writeFilteredRSS example_world (keepItem_skip ["recall"])
      "https://example.org/feed" initial = Done None s' /\
    encoded s' = [out] /\
    map feeds.Item.Title (feeds.Feed.Items out) = ["Alpha launch"; "Gamma update"] /\
    body (resp s') = "<rss>Alpha launch,Gamma update</rss>".
Proof. eexists _, _. split_and!; reflexivity. Qed.

(** ** Byte strings as lists *)

Lemma length_list_ascii_of_string s :
  length (list_ascii_of_string s) = String.length s.
Proof. induction s as [|c s IH]; simpl; [done|by rewrite IH]. Qed.

Lemma string_app_assoc (a b c : string) : (a +:+ b) +:+ c = a +:+ (b +:+ c).
Proof.
  induction a as [|x a IH]; [done|].
  change (String x ((a +:+ b) +:+ c) = String x (a +:+ (b +:+ c))). by rewrite IH.
Qed.

Lemma string_app_nil_r (a : string) : a +:+ "" = a.
Proof.
  induction a as [|x a IH]; [done|].
  change (String x (a +:+ "") = String x a). by rewrite IH.
Qed.

(** ** The small regexp implementation meets the interface *)

Lemma mini_search_spec s r :
  MiniRegexp.search s r = true <->
  exists i j, (i <= j <= length s)%nat /\ MiniRegexp.span s r i j = true.
Proof.
  unfold MiniRegexp.search. rewrite existsb_exists. split.
  - intros (i & Hi & Hex). apply existsb_exists in Hex as (j & Hj & Hspan).
    apply in_seq in Hi, Hj. exists i, j. split; [lia|done].
  - intros (i & j & Hij & Hspan). exists i. split; [apply in_seq; lia|].
    apply existsb_exists. exists j. split; [apply in_seq; lia|done].
Qed.

Lemma mini_MatchString_spec (r : MiniRegexp.re) (s : string) :
  MiniRegexp.matchString r s = true <->
  exists i j, (i <= j <= String.length s)%nat /\
    MiniRegexp.span (list_ascii_of_string s) r i j = true.
Proof.
  unfold MiniRegexp.matchString. rewrite mini_search_spec.
  by rewrite length_list_ascii_of_string.
Qed.

Lemma mini_Compile_empty :
  exists r, MiniRegexp.compile "" = inl r /\
    forall s : string, MiniRegexp.span (list_ascii_of_string s) r 0 0 = true.
Proof. exists MiniRegexp.Eps. split; reflexivity. Qed.

#[export] Instance mini_regexp : RegexpLib := {|
  Regexp := MiniRegexp.re;
  Compile := MiniRegexp.compile;
  MatchString := MiniRegexp.matchString;
  match_at := fun r s i j => MiniRegexp.span (list_ascii_of_string s) r i j = true;
  MatchString_spec := mini_MatchString_spec;
  Compile_empty := mini_Compile_empty
|}.

(** The scenario "re=^Beta" of the specification. *)
Example mini_regexp_Beta :
  exists r, MiniRegexp.compile "^Beta" = inl r /\
    map (MiniRegexp.matchString r) ["Alpha launch"; "Beta recall"; "Gamma update"]
    = [false; true; false].
Proof. eexists. split; reflexivity. Qed.

(** ** indexHandler *)

Lemma Has_true (query : gmap string (list string)) key :
  url.Has query key = true <-> is_Some (query !! key).
Proof. unfold url.Has. apply bool_decide_eq_true. Qed.

Lemma Has_false (query : gmap string (list string)) key :
  url.Has query key = false <-> query !! key = None.
Proof.
  unfold url.Has. rewrite bool_decide_eq_false. symmetry. apply eq_None_not_Some.
Qed.

Lemma Has_nonempty (query : gmap string (list string)) key :
  url.Has query key = true -> size query <> 0%nat.
Proof.
  intros [v Hv]%Has_true Hsize. apply map_size_empty_iff in Hsize.
  subst query. by rewrite lookup_empty in Hv.
Qed.

Section HandlerProperties.
Context {L : RegexpLib}.
Variable W : World.

Lemma indexHandler_nonempty query s :
  size query <> 0%nat ->
  indexHandler W query s =
  match keepItem_of query with
  | inr msg => modify_resp (http_Error msg StatusBadRequest) s
  | inl keepItem =>
      if negb (url.Has query "url") then
        modify_resp (http_Error "missing 'url'" StatusBadRequest) s
      else
        (err ← writeFilteredRSS W keepItem (url.Get query "url");
         match err with
         | Some e => modify_resp (http_Error e StatusInternalServerError)
         | None => mret tt
         end) s
  end.
Proof.
  intros Hne. unfold indexHandler. destruct (decide _); [done|].
  destruct (keepItem_of query); [|done]. by destruct (negb _).
Qed.

Lemma keepItem_of_re query :
  url.Has query "re" = true ->
  keepItem_of query =
  match Compile (url.Get query "re") with
  | inr err => inr err
  | inl regex => inl (MatchString regex)
  end.
Proof. intros H. unfold keepItem_of. by rewrite H. Qed.

Lemma keepItem_of_skip query skips :
  url.Has query "re" = false ->
  query !! "skip" = Some skips ->
  keepItem_of query = inl (keepItem_skip skips).
Proof. intros H Hs. unfold keepItem_of. by rewrite H, Hs. Qed.

Lemma keepItem_of_neither query :
  url.Has query "re" = false ->
  query !! "skip" = None ->
  keepItem_of query = inr "missing 'skip' or 're'".
Proof. intros H Hs. unfold keepItem_of. by rewrite H, Hs. Qed.

End HandlerProperties.

(** The handler has returned: name the final state, then read the
    response and the trace off it. *)
Ltac answered :=
  eexists; split; [reflexivity|]; split_and!; try reflexivity; try done.

(** C6. A request whose [re] parameter does not compile is answered
    with 400 (not 500) and the compile error as plain text, and the
    handler returns before any fetch: its trace of outside effects is
    empty. *)
Theorem invalid_regexp_bad_request `{L : RegexpLib} (W : World)
    (query : gmap string (list string)) (msg : string) :
  url.Has query "re" = true ->
  Compile (url.Get query "re") = inr msg ->
  exists s',
    indexHandler W query initial = Done tt s' /\
    status (resp s') = Some 400 /\
    status (resp s') <> Some 500 /\
    body (resp s') = msg +:+ newline /\
    header (resp s') !! "Content-Type" = Some "text/plain; charset=utf-8" /\
    fetched s' = [] /\
    trace s' = [].
Proof.
  intros Hre Hcompile.
  rewrite (indexHandler_nonempty W query initial (Has_nonempty _ _ Hre)).
  rewrite (keepItem_of_re query Hre), Hcompile.
  answered.
Qed.

Lemma invalid_regexp_bad_request_witness :
  let query := query_of [("re", ["("]); ("url", ["https://example.org/feed"])] in
  url.Has query "re" = true /\
  Compile (url.Get query "re") = inr "error parsing regexp: missing closing ): `(`" /\
  exists s',
    indexHandler example_world query initial = Done tt s' /\
    status (resp s') = Some 400 /\
    status (resp s') <> Some 500 /\
    body (resp s') = "error parsing regexp: missing closing ): `(`" +:+ newline /\
    header (resp s') !! "Content-Type" = Some "text/plain; charset=utf-8" /\
    fetched s' = [] /\
    trace s' = [].
Proof.
  split; [reflexivity|]. split; [reflexivity|].
  apply (invalid_regexp_bad_request example_world); reflexivity.
Defined.

(** C8. When the fetch or the parse of the upstream feed fails, the
    handler answers 500 with the error text; the encoder is never
    called, so no byte of RSS reaches the body. *)
Theorem fetch_failure_internal_error `{L : RegexpLib} (W : World)
    (query : gmap string (list string)) (keepItem : string -> bool) (err : string) :
  keepItem_of query = inl keepItem ->
  url.Has query "url" = true ->
  ParseURL W (url.Get query "url") = inr err ->
  exists s',
    indexHandler W query initial = Done tt s' /\
    status (resp s') = Some 500 /\
    body (resp s') = err +:+ newline /\
    header (resp s') !! "Content-Type" = Some "text/plain; charset=utf-8" /\
    encoded s' = [] /\
    fetched s' = [url.Get query "url"].
Proof.
  intros Hkeep Hurl Hfetch.
  rewrite (indexHandler_nonempty W query initial (Has_nonempty _ _ Hurl)).
  rewrite Hkeep, Hurl. simpl.
  rewrite (bind_done _ _ _ _ _ (writeFilteredRSS_fetch_error W _ _ initial _ Hfetch)).
  answered.
Qed.

Lemma fetch_failure_internal_error_witness :
  let query := query_of [("skip", ["recall"]); ("url", ["https://example.org/gone"])] in
  keepItem_of query = inl (keepItem_skip ["recall"]) /\
  url.Has query "url" = true /\
  ParseURL example_world (url.Get query "url") = inr "http error: 404 Not Found" /\
  exists s',
    indexHandler example_world query initial = Done tt s' /\
    status (resp s') = Some 500 /\
    body (resp s') = "http error: 404 Not Found" +:+ newline /\
    header (resp s') !! "Content-Type" = Some "text/plain; charset=utf-8" /\
    encoded s' = [] /\
    fetched s' = [url.Get query "url"].
Proof.
  split; [reflexivity|]. split; [reflexivity|]. split; [reflexivity|].
  apply (fetch_failure_internal_error example_world _ (keepItem_skip ["recall"]));
    reflexivity.
Defined.

(** ** Occurrences of a word in a body *)

Lemma starts_with_spec needle s :
  starts_with needle s = true <-> exists post, s = needle +:+ post.
Proof.
  revert s. induction needle as [|a n IH]; intros s; simpl.
  - split; [intros _; by exists s|done].
  - destruct s as [|b s].
    + split; [done|]. intros [post Hpost]. discriminate.
    + rewrite andb_true_iff, Ascii.eqb_eq, IH. split.
      * intros [-> [post ->]]. by exists post.
      * intros [post Hpost]. injection Hpost as -> ->. split; [done|by exists post].
Qed.

Lemma occurs_in_spec needle s :
  occurs_in needle s = true <-> mentions s needle.
Proof.
  unfold mentions. induction s as [|b s IH]; simpl.
  - rewrite orb_false_r, starts_with_spec. split.
    + intros [post Hpost]. by exists "", post.
    + intros (pre & post & H). destruct pre; [by exists post|discriminate].
  - rewrite orb_true_iff, starts_with_spec, IH. split.
    + intros [[post Hpost]|(pre & post & Hpost)].
      * by exists "", post.
      * exists (String b pre), post. by rewrite Hpost.
    + intros (pre & post & H). destruct pre as [|c pre].
      * left. by exists post.
      * right. injection H as -> ->. by exists pre, post.
Qed.

(** C7, as the code has it.  A request with a non-empty query and no
    [url] parameter is answered with 400 and a plain-text body, before
    any fetch.  The filter is examined first: the body is "missing
    'url'" (and so mentions [url]) when a [re] parameter compiles or,
    without [re], a [skip] parameter is present; it is the compile
    error when [re] does not compile, and "missing 'skip' or 're'" when
    neither parameter is present. *)
Theorem missing_url_bad_request `{L : RegexpLib} (W : World)
    (query : gmap string (list string)) :
  size query <> 0%nat ->
  url.Has query "url" = false ->
  exists s',
    indexHandler W query initial = Done tt s' /\
    status (resp s') = Some 400 /\
    header (resp s') !! "Content-Type" = Some "text/plain; charset=utf-8" /\
    trace s' = [] /\
    (forall regex,
       url.Has query "re" = true -> Compile (url.Get query "re") = inl regex ->
       body (resp s') = "missing 'url'" +:+ newline /\ mentions (body (resp s')) "url") /\
    (url.Has query "re" = false -> url.Has query "skip" = true ->
       body (resp s') = "missing 'url'" +:+ newline /\ mentions (body (resp s')) "url") /\
    (forall msg,
       url.Has query "re" = true -> Compile (url.Get query "re") = inr msg ->
       body (resp s') = msg +:+ newline) /\
    (url.Has query "re" = false -> url.Has query "skip" = false ->
       body (resp s') = "missing 'skip' or 're'" +:+ newline).
Proof.
  intros Hne Hurl.
  assert (Hmentions : mentions ("missing 'url'" +:+ newline) "url")
    by (by apply occurs_in_spec).
  rewrite (indexHandler_nonempty W query initial Hne). unfold keepItem_of.
  destruct (url.Has query "re") eqn:Hre.
  - destruct (Compile (url.Get query "re")) as [regex|msg] eqn:Hcompile.
    + rewrite Hurl. answered.
    + answered. intros msg' _ [= ->]. reflexivity.
  - destruct (query !! "skip") as [skips|] eqn:Hskip.
    + rewrite Hurl. answered.
      intros _ Hs. apply Has_false in Hs. congruence.
    + answered. intros _ [v Hs]%Has_true. congruence.
Qed.

Lemma missing_url_bad_request_witness :
  let query := query_of [("skip", ["recall"])] in
  size query <> 0%nat /\
  url.Has query "url" = false /\
  exists s',
    indexHandler example_world query initial = Done tt s' /\
    status (resp s') = Some 400 /\
    body (resp s') = "missing 'url'" +:+ newline /\
    mentions (body (resp s')) "url".
Proof.
  split; [by vm_compute|]. split; [reflexivity|].
  destruct (missing_url_bad_request example_world (query_of [("skip", ["recall"])]))
    as (s' & Hrun & Hstatus & _ & _ & _ & Hskip & _); [by vm_compute|reflexivity|].
  exists s'. destruct Hskip as [Hbody Hm]; [reflexivity|reflexivity|].
  by split_and!.
Defined.

(** C7, as stated, fails: a non-empty query with neither [url] nor a
    filter parameter is answered with "missing 'skip' or 're'", which
    does not mention [url]. *)
Lemma missing_url_body_counterexample :
  let query := query_of [("foo", ["bar"])] in
  size query <> 0%nat /\
  url.Has query "url" = false /\
  exists s',
    indexHandler example_world query initial = Done tt s' /\
    body (resp s') = "missing 'skip' or 're'" +:+ newline /\
    ~ mentions (body (resp s')) "url".
Proof.
  split; [by vm_compute|]. split; [reflexivity|].
  eexists. split; [reflexivity|]. split; [reflexivity|].
  intros H%occurs_in_spec. by vm_compute in H.
Qed.

(** ** Kept items that cannot be copied *)

(** The first kept item decides: when it has no author, or has one but
    no publication time, the loop panics at once, whatever follows. *)
Lemma range_items_panics_at keepItem item rest f s :
  keepItem (gofeed.Item.Title item) = true ->
  ~ complete item ->
  exists p, range_items keepItem (item :: rest) f s = Panicked p s.
Proof.
  intros Hkeep Hinc. simpl. rewrite Hkeep.
  destruct (gofeed.Item.Author item) as [author|] eqn:Hauthor.
  - rewrite (bind_done _ _ _ _ _ (deref_some _ author s)).
    destruct (gofeed.Item.PublishedParsed item) as [created|] eqn:Hdate.
    + destruct Hinc. split; [by rewrite Hauthor|by rewrite Hdate].
    + rewrite (bind_panicked _ _ _ _ _ (deref_none _ s)). by eexists.
  - rewrite (bind_panicked _ _ _ _ _ (deref_none _ s)). by eexists.
Qed.

(** Every projected item comes from a complete source item. *)
Lemma projects_complete src dst : projects src dst -> complete src.
Proof.
  intros (_ & _ & _ & (a & Ha & _) & Hdate). split; [by exists a|by eexists].
Qed.

(** Whenever some kept item lacks its author or its publication time,
    the handler panics right after the fetch, with nothing written. *)
Lemma incomplete_kept_item_panics `{L : RegexpLib} (W : World)
    (query : gmap string (list string)) (keepItem : string -> bool)
    (originalFeed : gofeed.Feed.t) (it : gofeed.Item.t) :
  keepItem_of query = inl keepItem ->
  url.Has query "url" = true ->
  ParseURL W (url.Get query "url") = inl originalFeed ->
  it ∈ kept keepItem (gofeed.Feed.Items originalFeed) ->
  ~ complete it ->
  exists p, indexHandler W query initial
            = Panicked p (after_fetch (url.Get query "url") initial).
Proof.
  intros Hkeep Hurl Hparse Hin Hinc.
  rewrite (indexHandler_nonempty W query initial (Has_nonempty _ _ Hurl)).
  rewrite Hkeep, Hurl. simpl. unfold mbind, M_bind.
  rewrite (writeFilteredRSS_parsed _ _ _ _ _ Hparse).
  pose proof (range_items_outcome keepItem (gofeed.Feed.Items originalFeed)
                (feed_header W originalFeed)
                (after_fetch (url.Get query "url") initial)) as Hloop.
  destruct (range_items _ _ _ _) as [out s'|p s'].
  - destruct Hloop as (_ & outs & Hall & _). destruct Hinc.
    apply list_elem_of_lookup in Hin as [i Hi].
    destruct (Forall2_lookup_l _ _ _ _ _ Hall Hi) as (dst & _ & Hdst).
    by eapply projects_complete.
  - destruct Hloop as (-> & _). by exists p.
Qed.

(** C2, on the code: a kept item without a parsed publication time.
    Line 109 dereferences the nil pointer; the handler panics after the
    fetch with nothing written: no status (so no 500), no error text,
    nothing encoded, and no error value returned to the handler. *)
Theorem undated_item_panics :
  let run :=
    indexHandler example_world
      (query_of [("skip", ["recall"]); ("url", ["https://example.org/undated"])])
      initial in
  run = Panicked (NilDereference "item.PublishedParsed")
          (after_fetch "https://example.org/undated" initial) /\
  status (resp (final run)) = None /\
  status (resp (final run)) <> Some 500 /\
  body (resp (final run)) = "" /\
  encoded (final run) = [].
Proof.
  intros run. split_and!; try reflexivity.
  intros H. vm_compute in H. discriminate.
Qed.

(** C3, on the code: a kept item without an author.  Line 108 reads
    [item.Author.Name] through the nil pointer; the handler panics and
    no output item is produced, where line 98 guards the same field of
    the feed. *)
Theorem authorless_item_panics :
  let run :=
    indexHandler example_world
      (query_of [("skip", ["recall"]); ("url", ["https://example.org/authorless"])])
      initial in
  keepItem_skip ["recall"] "Alpha launch" = true /\
  run = Panicked (NilDereference "item.Author")
          (after_fetch "https://example.org/authorless" initial) /\
  encoded (final run) = [] /\
  body (resp (final run)) = "".
Proof. intros run. split_and!; reflexivity. Qed.

(** ** Regex mode *)

(** C5. In regex mode the predicate is [MatchString] of the compiled
    pattern: a title is kept exactly when the pattern matches some
    span [i..j) of it, wherever the span lies; no anchoring to the
    whole title is imposed. *)
Theorem regexp_mode_searches `{L : RegexpLib}
    (query : gmap string (list string)) (regex : Regexp) :
  url.Has query "re" = true ->
  Compile (url.Get query "re") = inl regex ->
  exists keepItem,
    keepItem_of query = inl keepItem /\
    forall title : string,
      keepItem title = true <->
      exists i j, (i <= j <= String.length title)%nat /\ match_at regex title i j.
Proof.
  intros Hre Hcompile. exists (MatchString regex). split.
  - by rewrite (keepItem_of_re query Hre), Hcompile.
  - intros title. apply MatchString_spec.
Qed.

Lemma regexp_mode_searches_witness :
  let query := query_of [("re", ["recall"]); ("url", ["https://example.org/feed"])] in
  url.Has query "re" = true /\
  (exists regex, Compile (url.Get query "re") = inl regex) /\
  exists keepItem,
    keepItem_of query = inl keepItem /\
    keepItem "Beta recall notice" = true /\
    keepItem "Alpha launch" = false.
Proof.
  split; [reflexivity|]. split; [by eexists|].
  destruct (@regexp_mode_searches mini_regexp
              (query_of [("re", ["recall"]); ("url", ["https://example.org/feed"])])
              (MiniRegexp.Cat (MiniRegexp.Chr "r") (MiniRegexp.Cat (MiniRegexp.Chr "e")
                (MiniRegexp.Cat (MiniRegexp.Chr "c") (MiniRegexp.Cat (MiniRegexp.Chr "a")
                  (MiniRegexp.Cat (MiniRegexp.Chr "l") (MiniRegexp.Chr "l")))))))
    as (keepItem & Hkeep & Hspec); [reflexivity|reflexivity|].
  exists keepItem. split; [exact Hkeep|]. split.
  - apply Hspec. exists 5%nat, 11%nat. split; [simpl; lia|reflexivity].
  - injection Hkeep as <-. reflexivity.
Defined.

(** C10. With [re] present and empty, the predicate keeps every title;
    every feed handed to the encoder then carries one projected item
    per source item, in order, and the encoder is reached whenever
    every source item carries its author and publication time. *)
Theorem empty_regexp_keeps_all `{L : RegexpLib} (W : World)
    (query : gmap string (list string)) (originalFeed : gofeed.Feed.t) :
  url.Has query "re" = true ->
  url.Get query "re" = "" ->
  url.Has query "url" = true ->
  ParseURL W (url.Get query "url") = inl originalFeed ->
  let I := gofeed.Feed.Items originalFeed in
  let run := indexHandler W query initial in
  exists keepItem,
    keepItem_of query = inl keepItem /\
    (forall title, keepItem title = true) /\
    kept keepItem I = I /\
    (forall out, out ∈ encoded (final run) ->
       Forall2 projects I (feeds.Feed.Items out)) /\
    (Forall complete I -> exists out s', run = Done tt s' /\ encoded s' = [out]).
Proof.
  intros Hre Hpattern Hurl Hparse I run.
  destruct Compile_empty as (regex & Hcompile & Hmatch).
  assert (Hall : forall title, MatchString regex title = true).
  { intros title. apply MatchString_spec. exists 0%nat, 0%nat. split; [lia|apply Hmatch]. }
  assert (Hkeep : keepItem_of query = inl (MatchString regex))
    by (by rewrite (keepItem_of_re query Hre), Hpattern, Hcompile).
  assert (Hkept : kept (MatchString regex) I = I).
  { unfold kept. induction I as [|it I' IH]; [done|].
    rewrite filter_cons_True; [by rewrite IH|apply Hall]. }
  assert (Hrun : run =
    (err ← writeFilteredRSS W (MatchString regex) (url.Get query "url");
     match err with
     | Some e => modify_resp (http_Error e StatusInternalServerError)
     | None => mret tt
     end) initial).
  { subst run. rewrite (indexHandler_nonempty W query initial (Has_nonempty _ _ Hre)).
    by rewrite Hkeep, Hurl. }
  destruct (filtered_items_spec W (MatchString regex) (url.Get query "url")
              originalFeed initial Hparse eq_refl) as [Hsafe Hlive].
  fold I in Hsafe, Hlive. rewrite Hkept in Hsafe, Hlive.
  exists (MatchString regex). split_and!; try done.
  - intros out. rewrite Hrun. unfold mbind, M_bind.
    destruct (writeFilteredRSS _ _ _ initial) as [[e|] s'|p s'] eqn:Hw; simpl in *;
      apply Hsafe.
  - intros Hcomplete. destruct (Hlive Hcomplete) as (out & err & s' & Hw & Henc).
    rewrite Hrun. unfold mbind, M_bind. rewrite Hw.
    destruct err as [e|]; eexists out, _; (split; [reflexivity|]); simpl; exact Henc.
Qed.

Lemma empty_regexp_keeps_all_witness :
  let query := query_of [("re", [""]); ("url", ["https://example.org/feed"])] in
  url.Has query "re" = true /\
  url.Get query "re" = "" /\
  url.Has query "url" = true /\
  ParseURL example_world (url.Get query "url") = inl scenario_feed /\
  let I := gofeed.Feed.Items scenario_feed in
  let run := indexHandler example_world query initial in
  exists keepItem,
    keepItem_of query = inl keepItem /\
    (forall title, keepItem title = true) /\
    kept keepItem I = I /\
    (forall out, out ∈ encoded (final run) ->
       Forall2 projects I (feeds.Feed.Items out)) /\
    (Forall complete I -> exists out s', run = Done tt s' /\ encoded s' = [out]).
Proof.
  split; [reflexivity|]. split; [reflexivity|]. split; [reflexivity|].
  split; [reflexivity|].
  apply (@empty_regexp_keeps_all mini_regexp example_world
           (query_of [("re", [""]); ("url", ["https://example.org/feed"])])
           scenario_feed); reflexivity.
Defined.

(** ** statusHandler *)

(** [statusPattern] is the template without its first and last line
    break. *)
Example statusPattern_trimmed :
  statusPattern =
    "CPU used:" +:+ tab +:+ "%.2f%%" +:+ newline +:+
    "RAM used:" +:+ tab +:+ "%d / %d / %d MB (%.0f%%)" +:+ newline +:+
    "Goroutines:" +:+ tab +:+ "%d".
Proof. reflexivity. Qed.

Section StatusProperties.
Variable float64 : Type.
Variable float_zero : float64.
Variable FormatFloat : nat -> float64 -> string.

Lemma Sprintf_statusPattern (c : float64) (a u t : Z) (p : float64) (n : Z) :
  Sprintf FormatFloat (list_ascii_of_string statusPattern)
    [ArgFloat c; ArgInt a; ArgInt u; ArgInt t;
     ArgFloat p; ArgInt n]
  = Some (status_text (FormatFloat 2 c) a u t (FormatFloat 0 p) n).
Proof.
  rewrite <- (string_app_nil_r (status_text _ _ _ _ _ _)).
  unfold status_text. rewrite !string_app_assoc. reflexivity.
Qed.

End StatusProperties.

Lemma div_1024_twice (x : Z) : x / 1024 / 1024 = x / 2 ^ 20.
Proof. rewrite Z.div_div by lia. reflexivity. Qed.

Lemma div_1024_thrice (x : Z) : x / 1024 / 1024 / 1024 = x / 2 ^ 30.
Proof. rewrite !Z.div_div by lia. reflexivity. Qed.

(** C9, as the code has it.  When the host memory statistics are read,
    the status endpoint answers 200 with the three-line report; the
    process memory is the byte count divided by 1024 twice (mebibytes),
    while host-used and host-total memory are each divided by 1024
    three times (line 140, after the comment of lines 138-139). *)
Theorem status_report_memory (float64 : Type) (float_zero : float64)
    (FormatFloat : nat -> float64 -> string)
    (h : Host float64) (sysMem : VirtualMemoryStat float64) :
  mem_VirtualMemory h = Some sysMem ->
  let cpuUsage := match cpu_Percent h with x :: _ => x | [] => float_zero end in
  exists s',
    statusHandler float_zero FormatFloat h initial = Done tt s' /\
    status (resp s') = Some 200 /\
    body (resp s') =
      status_text (FormatFloat 2%nat cpuUsage)
        (Alloc h / 1024 / 1024)
        (Used sysMem / 1024 / 1024 / 1024)
        (Total sysMem / 1024 / 1024 / 1024)
        (FormatFloat 0%nat (UsedPercent sysMem))
        (NumGoroutine h) /\
    Alloc h / 1024 / 1024 = Alloc h / 2 ^ 20 /\
    Used sysMem / 1024 / 1024 / 1024 = Used sysMem / 2 ^ 30 /\
    Total sysMem / 1024 / 1024 / 1024 = Total sysMem / 2 ^ 30.
Proof.
  intros Hmem cpuUsage. unfold statusHandler, status_args.
  rewrite Hmem. unfold mbind, M_bind. rewrite deref_some.
  unfold mret, M_ret. rewrite Sprintf_statusPattern.
  eexists. split; [reflexivity|]. split; [reflexivity|]. split; [reflexivity|].
  split; [apply div_1024_twice|]. split; apply div_1024_thrice.
Qed.

Lemma status_report_memory_witness :
  mem_VirtualMemory example_host = Some example_sysMem /\
  exists s',
    statusHandler 0 whole_number example_host initial = Done tt s' /\
    status (resp s') = Some 200 /\
    body (resp s') = status_text "12.00" 3 5 8 "62" 7.
Proof.
  split; [reflexivity|].
  destruct (status_report_memory Z 0 whole_number example_host example_sysMem eq_refl)
    as (s' & Hrun & Hstatus & Hbody & _).
  exists s'. split; [exact Hrun|]. split; [exact Hstatus|]. exact Hbody.
Defined.

(** C9, as stated, fails: with 5 GiB used of 8 GiB the report reads
    "3 / 5 / 8 MB", where both host figures divided by 1024 twice
    would read 5120 and 8192. *)
Lemma status_report_counterexample :
  exists s',
    statusHandler 0 whole_number example_host initial = Done tt s' /\
    body (resp s') = status_text "12.00" 3 5 8 "62" 7 /\
    status_text_in_megabytes "12.00" (Alloc example_host) (Used example_sysMem)
      (Total example_sysMem) "62" 7
    = status_text "12.00" 3 5120 8192 "62" 7 /\
    body (resp s') <>
      status_text_in_megabytes "12.00" (Alloc example_host) (Used example_sysMem)
        (Total example_sysMem) "62" 7.
Proof.
  eexists. split; [reflexivity|]. split; [reflexivity|].
  split; [reflexivity|]. by vm_compute.
Qed.

(** ** strings.Fields and the tokens of a title *)

Lemma decode_width c t :
  (1 <= (utf8.DecodeRuneInString (c :: t)).2 <= S (length t))%nat.
Proof.
  unfold utf8.DecodeRuneInString.
  repeat (case_match; simpl in *; try lia).
Qed.

Lemma runes_from_skip l : forall k, runes_from l k = runes_from (drop k l) 0.
Proof.
  induction l as [|c t IH]; intros [|k]; simpl; auto.
Qed.

Lemma range_from_skip l : forall k pos,
  strings.range_from l k pos = strings.range_from (drop k l) 0 (pos + k).
Proof.
  induction l as [|c t IH]; intros [|k] pos; simpl; try done.
  - by rewrite Nat.add_0_r.
  - rewrite IH. f_equal. lia.
Qed.

Lemma runes_from_cons c t :
  runes_from (c :: t) 0 =
  let '(r, w) := utf8.DecodeRuneInString (c :: t) in
  (r, take w (c :: t)) :: runes_from (drop w (c :: t)) 0.
Proof.
  pose proof (decode_width c t) as Hw.
  change (runes_from (c :: t) 0) with
    (let '(r, w) := utf8.DecodeRuneInString (c :: t) in
     (r, take w (c :: t)) :: runes_from t (w - 1)).
  destruct (utf8.DecodeRuneInString (c :: t)) as [r w]. simpl in Hw.
  rewrite runes_from_skip. destruct w as [|w]; [lia|].
  simpl. by rewrite Nat.sub_0_r.
Qed.

Lemma range_from_cons c t pos :
  strings.range_from (c :: t) 0 pos =
  let '(r, w) := utf8.DecodeRuneInString (c :: t) in
  (pos, r) :: strings.range_from (drop w (c :: t)) 0 (pos + w).
Proof.
  pose proof (decode_width c t) as Hw.
  change (strings.range_from (c :: t) 0 pos) with
    (let '(r, w) := utf8.DecodeRuneInString (c :: t) in
     (pos, r) :: strings.range_from t (w - 1) (S pos)).
  destruct (utf8.DecodeRuneInString (c :: t)) as [r w]. simpl in Hw.
  rewrite range_from_skip. destruct w as [|w]; [lia|].
  simpl. rewrite Nat.sub_0_r. do 2 f_equal. lia.
Qed.

(** The loop of [for range] visits the runes at their byte offsets. *)
Lemma range_positions n : forall l pos,
  (length l <= n)%nat ->
  strings.range_from l 0 pos = positions pos (runes_from l 0).
Proof.
  induction n as [|n IH]; intros [|c t] pos Hlen; simpl in Hlen; try done; [lia|].
  rewrite range_from_cons, runes_from_cons.
  pose proof (decode_width c t) as Hw.
  destruct (utf8.DecodeRuneInString (c :: t)) as [r w]. simpl in Hw.
  simpl positions. rewrite length_take_le by (simpl; lia).
  f_equal. apply IH. rewrite length_drop. simpl. lia.
Qed.

(** The characters of a string, put end to end, are the string. *)
Lemma runes_bytes n : forall l,
  (length l <= n)%nat -> bytes_of (runes_from l 0) = l.
Proof.
  induction n as [|n IH]; intros [|c t] Hlen; simpl in Hlen; try done; [lia|].
  rewrite runes_from_cons.
  pose proof (decode_width c t) as Hw.
  destruct (utf8.DecodeRuneInString (c :: t)) as [r w]. simpl in Hw.
  unfold bytes_of in *. simpl map. simpl concat. rewrite IH; [apply take_drop|].
  rewrite length_drop. simpl. lia.
Qed.

Lemma text_of_runes s : text_of (runes s) = s.
Proof.
  unfold text_of, runes. rewrite (runes_bytes _ _ (le_n _)).
  apply string_of_list_ascii_of_string.
Qed.

Lemma substring_middle_list (a b c : list ascii) :
  substring (length a) (length b) (string_of_list_ascii (a ++ b ++ c))
  = string_of_list_ascii b.
Proof.
  induction a as [|x a IH]; simpl; [|exact IH].
  induction b as [|y b IHb]; simpl; [by destruct c|by rewrite IHb].
Qed.

Lemma substring_middle (s : string) (a b c : list ascii) :
  list_ascii_of_string s = a ++ b ++ c ->
  substring (length a) (length b) s = string_of_list_ascii b.
Proof.
  intros H. rewrite <- (string_of_list_ascii_of_string s), H.
  apply substring_middle_list.
Qed.

Lemma bytes_of_app cs1 cs2 : bytes_of (cs1 ++ cs2) = bytes_of cs1 ++ bytes_of cs2.
Proof. unfold bytes_of. by rewrite map_app, concat_app. Qed.

(** The loop of [FieldsFunc], from any point on: [before] is what lies
    before the field being read, [cur] the characters of that field. *)
Lemma fields_loop (s : string) cs : forall before cur spans start pos spans' start',
  list_ascii_of_string s = before ++ bytes_of cur ++ bytes_of cs ->
  pos = (length before + length (bytes_of cur))%nat ->
  start = match cur with [] => None | _ :: _ => Some (length before) end ->
  fold_left (strings.fields_step unicode.IsSpace) (positions pos cs) (spans, start)
    = (spans', start') ->
  map (fun '(a, b) => substring a (b - a) s)
    match start' with
    | Some st => spans' ++ [(st, String.length s)]
    | None => spans'
    end
  = map (fun '(a, b) => substring a (b - a) s) spans
    ++ map text_of (split_chunks cs cur).
Proof.
  induction cs as [|[r b] t IH];
    intros before cur spans start pos spans' start' Hs Hpos Hstart Hfold.
  - simpl in Hfold. injection Hfold as <- <-. subst start. simpl.
    destruct cur as [|c cur]; [by rewrite app_nil_r|].
    rewrite map_app. f_equal. simpl. f_equal.
    rewrite <- length_list_ascii_of_string, Hs, !length_app.
    replace (length before + _ - length before)%nat
      with (length (bytes_of (c :: cur))) by (simpl; lia).
    by apply (substring_middle s before _ (bytes_of [])).
  - simpl in Hfold. simpl split_chunks.
    assert (Hsplit : bytes_of ((r, b) :: t) = b ++ bytes_of t) by reflexivity.
    destruct (unicode.IsSpace r) eqn:Hspace.
    + destruct cur as [|c cur]; subst start; simpl in Hfold.
      * apply (IH (before ++ b) [] spans None (pos + length b)%nat spans' start');
          try done.
        -- rewrite Hs, Hsplit. simpl. by rewrite <- app_assoc.
        -- subst pos. rewrite length_app. simpl. lia.
      * assert (Hs' : list_ascii_of_string s
                      = (before ++ bytes_of (c :: cur) ++ b) ++ bytes_of [] ++ bytes_of t).
        { rewrite Hs, Hsplit. simpl. by rewrite <- !app_assoc. }
        assert (Hpos' : (pos + length b)%nat
                        = (length (before ++ bytes_of (c :: cur) ++ b)
                           + length (bytes_of []))%nat).
        { subst pos. rewrite !length_app. simpl. lia. }
        rewrite (IH _ [] _ None _ spans' start' Hs' Hpos' eq_refl Hfold).
        rewrite map_app, <- app_assoc. f_equal. simpl. f_equal.
        subst pos.
        replace (length before + _ - length before)%nat
          with (length (bytes_of (c :: cur))) by lia.
        apply (substring_middle s before _ (b ++ bytes_of t)).
        by rewrite Hs, Hsplit.
    + destruct cur as [|c cur]; subst start; simpl in Hfold.
      * change (length (bytes_of [])) with 0%nat in Hpos.
        rewrite Nat.add_0_r in Hpos. subst pos.
        apply (IH before [(r, b)] spans (Some (length before))
                 (length before + length b)%nat spans' start'); try done.
        -- rewrite Hs, Hsplit. unfold bytes_of. simpl. by rewrite app_nil_r.
        -- unfold bytes_of. simpl. by rewrite app_nil_r.
      * apply (IH before ((c :: cur) ++ [(r, b)]) spans (Some (length before))
                 (pos + length b)%nat spans' start'); try done.
        -- rewrite Hs, Hsplit, bytes_of_app. unfold bytes_of at 4. simpl.
           by rewrite app_nil_r, <- !app_assoc.
        -- subst pos. rewrite bytes_of_app, length_app. unfold bytes_of at 3.
           simpl. rewrite app_nil_r. lia.
Qed.

(** [Fields] is the splitting of the characters at white space. *)
Lemma Fields_split (s : string) :
  strings.Fields s = map text_of (split_chunks (runes s) []).
Proof.
  unfold strings.Fields, strings.FieldsFunc, strings.range.
  rewrite (range_positions _ _ _ (le_n _)). fold (runes s).
  destruct (fold_left _ _ _) as [spans' start'] eqn:Hfold.
  apply (fields_loop s (runes s) [] [] [] None 0%nat spans' start'); try done.
  simpl. unfold runes. by rewrite (runes_bytes _ _ (le_n _)).
Qed.

Lemma split_chunks_spec cs : forall cur mid,
  mid ∈ split_chunks cs cur <->
  (exists a post,
     cs = a ++ post /\ mid = cur ++ a /\ mid <> [] /\
     Forall (fun c => unicode.IsSpace (fst c) = false) a /\ space_follows post)
  \/ (exists pre post c,
     cs = pre ++ mid ++ post /\ mid <> [] /\
     Forall (fun c => unicode.IsSpace (fst c) = false) mid /\
     last pre = Some c /\ unicode.IsSpace (fst c) = true /\ space_follows post).
Proof.
  induction cs as [|c t IH]; intros cur mid.
  - simpl. split.
    + intros Hin. left. exists [], []. destruct cur as [|x cur].
      * by apply elem_of_nil in Hin.
      * apply list_elem_of_singleton in Hin as ->.
        split_and!; try done; [by rewrite app_nil_r|by left].
    + intros [(a & post & Hcs & -> & Hne & _)|(pre & post & x & Hcs & Hne & _)].
      * symmetry in Hcs. apply app_eq_nil in Hcs as [-> ->].
        rewrite app_nil_r in *. destruct cur; [done|]. apply list_elem_of_here.
      * symmetry in Hcs. apply app_eq_nil in Hcs as [_ [-> _]%app_eq_nil]. done.
  - simpl. destruct (unicode.IsSpace c.1) eqn:Hspace.
    + rewrite elem_of_app, IH. split.
      * intros [Hcur|[(a & post & -> & -> & Hne & Ha & Hpost)
                     |(pre & post & x & -> & Hne & Hmid & Hlast & Hx & Hpost)]].
        -- left. exists [], (c :: t). destruct cur as [|y cur].
           ++ by apply elem_of_nil in Hcur.
           ++ apply list_elem_of_singleton in Hcur as ->.
              split_and!; try done; [by rewrite app_nil_r|right; by exists c].
        -- right. exists [c], post, c. simpl in *. by split_and!.
        -- right. exists (c :: pre), post, x. split_and!; try done.
           rewrite last_cons, Hlast. done.
      * intros [(a & post & Hcs & -> & Hne & Ha & Hpost)
               |(pre & post & x & Hcs & Hne & Hmid & Hlast & Hx & Hpost)].
        -- destruct a as [|y a].
           ++ left. rewrite app_nil_r in *. destruct cur; [done|].
              apply list_elem_of_here.
           ++ injection Hcs as <- ->. apply Forall_cons in Ha as [Hc _].
              simpl in Hc. congruence.
        -- destruct pre as [|y pre]; [done|]. injection Hcs as <- ->.
           right. destruct pre as [|z pre].
           ++ left. exists mid, post. by split_and!.
           ++ right. exists (z :: pre), post, x. by split_and!.
    + rewrite IH. split.
      * intros [(a & post & -> & -> & Hne & Ha & Hpost)
               |(pre & post & x & -> & Hne & Hmid & Hlast & Hx & Hpost)].
        -- left. exists (c :: a), post. rewrite <- app_assoc in *.
           split_and!; try done. by apply Forall_cons.
        -- right. exists (c :: pre), post, x. split_and!; try done.
           rewrite last_cons, Hlast. done.
      * intros [(a & post & Hcs & -> & Hne & Ha & Hpost)
               |(pre & post & x & Hcs & Hne & Hmid & Hlast & Hx & Hpost)].
        -- destruct a as [|y a].
           ++ simpl in Hcs. subst post.
              destruct Hpost as [?|(x & [= <-] & Hx)]; [done|congruence].
           ++ injection Hcs as <- ->. apply Forall_cons in Ha as [_ Ha].
              left. exists a, post. rewrite <- app_assoc. by split_and!.
        -- destruct pre as [|y pre]; [done|]. injection Hcs as <- ->.
           destruct pre as [|z pre].
           ++ simpl in Hlast. injection Hlast as <-. congruence.
           ++ right. exists (z :: pre), post, x. by split_and!.
Qed.

(** The fields of a title are its whitespace-delimited tokens. *)
Lemma Fields_tokens (title tok : string) :
  tok ∈ strings.Fields title <-> is_token title tok.
Proof.
  rewrite Fields_split, list_elem_of_fmap. unfold is_token. split.
  - intros (mid & -> & Hmid). apply split_chunks_spec in Hmid
      as [(a & post & Hcs & -> & Hne & Ha & Hpost)
         |(pre & post & x & Hcs & Hne & Hm & Hlast & Hx & Hpost)].
    + exists [], a, post. simpl in *. split_and!; try done. by left.
    + exists pre, mid, post. split_and!; try done. right. by exists x.
  - intros (pre & mid & post & Hcs & -> & Hne & Hmid & Hpre & Hpost).
    exists mid. split; [done|]. apply split_chunks_spec.
    destruct Hpre as [->|(x & Hlast & Hx)].
    + left. exists mid, post. by split_and!.
    + right. exists pre, post, x. by split_and!.
Qed.

Lemma Contains_spec (s : list string) (v : string) :
  slices.Contains s v = true <-> v ∈ s.
Proof.
  induction s as [|x s IH]; simpl.
  - split; [done|by intros ?%elem_of_nil].
  - destruct (String.eqb x v) eqn:E.
    + apply String.eqb_eq in E as ->. split; [intros _; apply list_elem_of_here|done].
    + apply String.eqb_neq in E. rewrite IH, elem_of_cons.
      split; [by right|]. intros [->|Hin]; [congruence|exact Hin].
Qed.

Lemma skip_loop_spec (skips words : list string) :
  skip_loop skips words = true <-> forall word, word ∈ words -> word ∉ skips.
Proof.
  induction words as [|w words IH]; simpl.
  - split; [by intros _ ? ?%elem_of_nil|done].
  - destruct (slices.Contains skips w) eqn:E.
    + apply Contains_spec in E. split; [done|].
      intros H. destruct (H w); [apply list_elem_of_here|done].
    + rewrite IH. split.
      * intros H word [->|Hin]%elem_of_cons; [|by apply H].
        intros Hw%Contains_spec. congruence.
      * intros H word Hin. apply H. by apply list_elem_of_further.
Qed.

Example recall_is_a_token : is_token "Beta  recall today" "recall".
Proof. apply Fields_tokens. vm_compute. apply list_elem_of_further, list_elem_of_here. Qed.

Example call_is_not_a_token : ~ is_token "Beta  recall today" "call".
Proof.
  intros H%Fields_tokens. vm_compute in H.
  repeat (apply elem_of_cons in H as [H|H]; [discriminate|]).
  by apply elem_of_nil in H.
Qed.

(** ** Skip mode *)

(** C4. In skip mode (no [re] parameter, [skip] present) the predicate
    keeps a title exactly when none of its whitespace-delimited tokens
    is one of the skip words; tokens and words are compared as byte
    strings, whole token against whole word.  With no skip word every
    title is kept. *)
Theorem skip_mode_tokens `{L : RegexpLib}
    (query : gmap string (list string)) (skips : list string) :
  url.Has query "re" = false ->
  query !! "skip" = Some skips ->
  exists keepItem,
    keepItem_of query = inl keepItem /\
    (forall title : string,
       keepItem title = true <->
       forall tok, is_token title tok -> tok ∉ skips) /\
    (skips = [] -> forall title, keepItem title = true).
Proof.
  intros Hre Hskip. exists (keepItem_skip skips).
  assert (Hspec : forall title : string,
            keepItem_skip skips title = true <->
            forall tok, is_token title tok -> tok ∉ skips).
  { intros title. unfold keepItem_skip. rewrite skip_loop_spec.
    split; intros H tok Htok; apply H; by apply Fields_tokens. }
  split; [by apply keepItem_of_skip|]. split; [exact Hspec|].
  intros -> title. apply Hspec. intros tok _. apply not_elem_of_nil.
Qed.

Lemma skip_mode_tokens_witness :
  let query := query_of [("skip", ["recall"; "update"]);
                         ("url", ["https://example.org/feed"])] in
  url.Has query "re" = false /\
  query !! "skip" = Some ["recall"; "update"] /\
  exists keepItem,
    keepItem_of query = inl keepItem /\
    (forall title : string,
       keepItem title = true <->
       forall tok, is_token title tok -> tok ∉ ["recall"; "update"]) /\
    keepItem "Beta recall" = false /\
    keepItem "Beta Recall" = true /\
    keepItem "Beta recalled" = true.
Proof.
  split; [reflexivity|]. split; [reflexivity|].
  destruct (@skip_mode_tokens mini_regexp
              (query_of [("skip", ["recall"; "update"]);
                         ("url", ["https://example.org/feed"])])
              ["recall"; "update"] eq_refl eq_refl)
    as (keepItem & Hkeep & Hspec & _).
  exists keepItem. split; [exact Hkeep|]. split; [exact Hspec|].
  injection Hkeep as <-. split_and!; reflexivity.
Defined.

(** ** Further properties of the handlers *)

(** A request without query parameters is served the landing page
    (lines 45-49): status 200, the embedded document as body, nothing
    fetched. *)
Theorem index_page_on_empty_query `{L : RegexpLib} (W : World) :
  exists s',
    indexHandler W ∅ initial = Done tt s' /\
    status (resp s') = Some 200 /\
    body (resp s') = indexHTML W /\
    trace s' = [].
Proof. answered. Qed.

(** A non-empty query with neither [re] nor [skip] (lines 69-72) is
    answered with 400 and a message that names both parameters,
    whether or not [url] is present. *)
Theorem missing_filter_bad_request `{L : RegexpLib} (W : World)
    (query : gmap string (list string)) :
  size query <> 0%nat ->
  url.Has query "re" = false ->
  url.Has query "skip" = false ->
  exists s',
    indexHandler W query initial = Done tt s' /\
    status (resp s') = Some 400 /\
    body (resp s') = "missing 'skip' or 're'" +:+ newline /\
    mentions (body (resp s')) "skip" /\
    mentions (body (resp s')) "re" /\
    trace s' = [].
Proof.
  intros Hne Hre Hskip%Has_false.
  rewrite (indexHandler_nonempty W query initial Hne).
  rewrite (keepItem_of_neither query Hre Hskip).
  answered; by apply occurs_in_spec.
Qed.

Lemma missing_filter_bad_request_witness :
  let query := query_of [("url", ["https://example.org/feed"])] in
  size query <> 0%nat /\
  url.Has query "re" = false /\
  url.Has query "skip" = false /\
  exists s',
    indexHandler example_world query initial = Done tt s' /\
    status (resp s') = Some 400 /\
    body (resp s') = "missing 'skip' or 're'" +:+ newline /\
    mentions (body (resp s')) "skip" /\
    mentions (body (resp s')) "re" /\
    trace s' = [].
Proof.
  split; [by vm_compute|]. split; [reflexivity|]. split; [reflexivity|].
  apply (missing_filter_bad_request example_world); [by vm_compute|reflexivity..].
Defined.

(** When both [re] and [skip] are supplied, [re] decides (lines 52-60):
    the predicate is the regexp's, the skip words are not consulted. *)
Theorem regexp_takes_precedence `{L : RegexpLib}
    (query : gmap string (list string)) (skips : list string) (regex : Regexp) :
  url.Has query "re" = true ->
  query !! "skip" = Some skips ->
  Compile (url.Get query "re") = inl regex ->
  keepItem_of query = inl (MatchString regex).
Proof. intros Hre _ Hcompile. by rewrite (keepItem_of_re query Hre), Hcompile. Qed.

Lemma regexp_takes_precedence_witness :
  let query := query_of [("re", ["^Beta"]); ("skip", ["recall"])] in
  url.Has query "re" = true /\
  query !! "skip" = Some ["recall"] /\
  exists regex,
    Compile (url.Get query "re") = inl regex /\
    keepItem_of query = inl (MatchString regex) /\
    MatchString regex "Beta recall" = true /\
    keepItem_skip ["recall"] "Beta recall" = false.
Proof.
  split; [reflexivity|]. split; [reflexivity|].
  eexists. split; [reflexivity|]. split; [|split; reflexivity].
  apply (@regexp_takes_precedence mini_regexp _ ["recall"]); reflexivity.
Defined.

(** The feed-level fields of every encoded feed are those of the
    source feed (lines 92-100): title and description copied, the link
    wrapped, the author copied when there is one, and the creation
    time read from the clock. *)
Theorem feed_metadata_copied (W : World) (keepItem : string -> bool)
    (rssURL : string) (originalFeed : gofeed.Feed.t) :
  ParseURL W rssURL = inl originalFeed ->
  forall out, out ∈ encoded (final (writeFilteredRSS W keepItem rssURL initial)) ->
    feeds.Feed.Title out = gofeed.Feed.Title originalFeed /\
    feeds.Feed.Link out = Some {| feeds.Link.Href := gofeed.Feed.Link originalFeed |} /\
    feeds.Feed.Description out = gofeed.Feed.Description originalFeed /\
    feeds.Feed.Author out =
      (fun a => {| feeds.Author.Name := gofeed.Person.Name a;
                   feeds.Author.Email := gofeed.Person.Email a |})
      <$> gofeed.Feed.Author originalFeed /\
    feeds.Feed.Created out = now W.
Proof.
  intros Hparse out Hout.
  rewrite (writeFilteredRSS_parsed _ _ _ _ _ Hparse) in Hout.
  pose proof (range_items_outcome keepItem (gofeed.Feed.Items originalFeed)
                (feed_header W originalFeed) (after_fetch rssURL initial)) as Hloop.
  destruct (range_items _ _ _ _) as [out' s'|p s']; simpl in Hout.
  - destruct Hloop as (-> & outs & _ & _ & Htitle & Hlink & Hdesc & Hauthor & Hcreated).
    rewrite encoded_after_encode, encoded_after_fetch in Hout.
    apply list_elem_of_singleton in Hout as ->.
    by split_and!.
  - destruct Hloop as (-> & _).
    rewrite encoded_after_fetch in Hout. by apply elem_of_nil in Hout.
Qed.

Lemma feed_metadata_copied_witness :
  ParseURL example_world "https://example.org/feed" = inl scenario_feed /\
  forall out,
    out ∈ encoded (final (writeFilteredRSS example_world (keepItem_skip ["recall"])
                            "https://example.org/feed" initial)) ->
    feeds.Feed.Title out = "News" /\
    feeds.Feed.Created out = 1700000100.
Proof.
  split; [reflexivity|]. intros out Hout.
  destruct (feed_metadata_copied example_world (keepItem_skip ["recall"])
              "https://example.org/feed" scenario_feed eq_refl out Hout)
    as (Htitle & _ & _ & _ & Hcreated).
  split; [exact Htitle|exact Hcreated].
Defined.

(** A late failure of the encoder (lines 80-83, 114): once the encoder
    has written bytes, the status is 200 and stays so; the 500 of
    [http.Error] is dropped and the error text follows the truncated
    document in the body.  When the encoder fails before writing
    anything, the answer is a plain 500. *)
Theorem late_encoder_failure `{L : RegexpLib} (W : World)
    (query : gmap string (list string)) (keepItem : string -> bool)
    (originalFeed : gofeed.Feed.t) (bytes e : string) :
  keepItem_of query = inl keepItem ->
  url.Has query "url" = true ->
  ParseURL W (url.Get query "url") = inl originalFeed ->
  Forall complete (kept keepItem (gofeed.Feed.Items originalFeed)) ->
  (forall f, RssBytes W f = (bytes, Some e)) ->
  exists s',
    indexHandler W query initial = Done tt s' /\
    (bytes <> "" ->
       status (resp s') = Some 200 /\ body (resp s') = bytes +:+ e +:+ newline) /\
    (bytes = "" ->
       status (resp s') = Some 500 /\ body (resp s') = e +:+ newline).
Proof.
  intros Hkeep Hurl Hparse Hall Henc.
  rewrite (indexHandler_nonempty W query initial (Has_nonempty _ _ Hurl)).
  rewrite Hkeep, Hurl. simpl. unfold mbind, M_bind.
  rewrite (writeFilteredRSS_parsed _ _ _ _ _ Hparse).
  destruct (range_items_total keepItem (gofeed.Feed.Items originalFeed)
              (feed_header W originalFeed)
              (after_fetch (url.Get query "url") initial) Hall) as [out ->].
  rewrite Henc. simpl. eexists. split; [reflexivity|].
  unfold after_encode. rewrite Henc. simpl.
  destruct (String.eqb bytes "") eqn:E.
  - apply String.eqb_eq in E as ->. split; [done|]. intros _. by split.
  - apply String.eqb_neq in E. split; [|done]. intros _. split; [reflexivity|].
    simpl. unfold http_Error, Write, WriteHeader. simpl.
    by rewrite string_app_assoc.
Qed.

Lemma late_encoder_failure_witness :
  let query := query_of [("skip", ["recall"]); ("url", ["https://example.org/feed"])] in
  keepItem_of query = inl (keepItem_skip ["recall"]) /\
  url.Has query "url" = true /\
  ParseURL broken_pipe_world (url.Get query "url") = inl scenario_feed /\
  exists s',
    indexHandler broken_pipe_world query initial = Done tt s' /\
    status (resp s') = Some 200 /\
    body (resp s') = "<rss>" +:+ "write: broken pipe" +:+ newline.
Proof.
  split; [reflexivity|]. split; [reflexivity|]. split; [reflexivity|].
  destruct (@late_encoder_failure mini_regexp broken_pipe_world
              (query_of [("skip", ["recall"]); ("url", ["https://example.org/feed"])])
              (keepItem_skip ["recall"]) scenario_feed "<rss>" "write: broken pipe"
              eq_refl eq_refl eq_refl)
    as (s' & Hrun & Hlate & _).
  - repeat constructor; by eexists.
  - reflexivity.
  - exists s'. split; [exact Hrun|]. by apply Hlate.
Defined.

(** ** Every path through indexHandler *)

Lemma Forall2_projects_complete l outs :
  Forall2 projects l outs -> Forall complete l.
Proof.
  induction 1 as [|src dst l outs Hp _ IH]; constructor; [|done].
  by eapply projects_complete.
Qed.

(** The handler, run on a fresh response, ends in one of the seven
    ways of [answer]. *)
Lemma indexHandler_answer `{L : RegexpLib} (W : World)
    (query : gmap string (list string)) :
  answer W query (indexHandler W query initial).
Proof.
  destruct (decide (size query = 0%nat)) as [Hz|Hne].
  { unfold indexHandler. destruct (decide _); [|done]. by apply LandingPage. }
  rewrite (indexHandler_nonempty W query initial Hne).
  destruct (keepItem_of query) as [keepItem|msg] eqn:Hkeep; [|by apply BadFilter].
  destruct (url.Has query "url") eqn:Hurl; simpl; [|by eapply MissingURL].
  assert (Hv : validated query keepItem) by done.
  unfold mbind, M_bind.
  destruct (ParseURL W (url.Get query "url")) as [originalFeed|err] eqn:Hparse.
  - rewrite (writeFilteredRSS_parsed _ _ _ _ _ Hparse).
    pose proof (range_items_outcome keepItem (gofeed.Feed.Items originalFeed)
                  (feed_header W originalFeed)
                  (after_fetch (url.Get query "url") initial)) as Hloop.
    destruct (range_items _ _ _ _) as [out s'|p s'].
    + destruct Hloop as (-> & outs & Hall & Hitems & _).
      simpl in Hitems. rewrite <- Hitems in Hall.
      destruct (RssBytes W out).2 as [err|] eqn:Henc.
      * by eapply EncoderFailed.
      * by eapply Served.
    + destruct Hloop as (-> & it & Hin & Hinc). by eapply Crashed.
  - rewrite (writeFilteredRSS_fetch_error _ _ _ _ _ Hparse). by eapply FetchFailed.
Qed.

(** Two descriptions of one request agree on its predicate and feed. *)
Ltac same_request :=
  unfold validated in *;
  repeat match goal with
  | H : _ /\ _ |- _ => destruct H
  | H1 : ?t = inl ?a, H2 : ?t = inl ?b |- _ =>
      assert (b = a) by congruence; subst b; clear H2
  | H1 : ?t = inl _, H2 : ?t = inr _ |- _ => congruence
  | H1 : ?t = true, H2 : ?t = false |- _ => congruence
  end.

Lemma served_response W out rssURL :
  let s := after_encode W out (after_fetch rssURL initial) in
  body (resp s) = (RssBytes W out).1 /\
  header (resp s) = ∅ /\
  status (resp s) = (if String.eqb (RssBytes W out).1 "" then None else Some 200) /\
  trace s = [EvFetch rssURL; EvWriteRss out].
Proof.
  unfold after_encode, after_fetch. simpl.
  destruct (String.eqb (RssBytes W out).1 "") eqn:E; [|by split_and!].
  apply String.eqb_eq in E. by rewrite E.
Qed.

(** The success path (lines 80-84, 86-115).  When validation passes,
    the feed parses, every kept item carries its author and publication
    time and the encoder does not fail, the handler returns after one
    fetch and one encoding; the body is exactly what the encoder wrote
    for the filtered feed, the status is 200, and the handler sets no
    header of its own. *)
Theorem filtered_feed_served `{L : RegexpLib} (W : World)
    (query : gmap string (list string)) (keepItem : string -> bool)
    (originalFeed : gofeed.Feed.t) :
  keepItem_of query = inl keepItem ->
  url.Has query "url" = true ->
  ParseURL W (url.Get query "url") = inl originalFeed ->
  Forall complete (kept keepItem (gofeed.Feed.Items originalFeed)) ->
  (forall f, (RssBytes W f).2 = None) ->
  exists out s',
    indexHandler W query initial = Done tt s' /\
    trace s' = [EvFetch (url.Get query "url"); EvWriteRss out] /\
    Forall2 projects (kept keepItem (gofeed.Feed.Items originalFeed))
      (feeds.Feed.Items out) /\
    body (resp s') = (RssBytes W out).1 /\
    ((RssBytes W out).1 <> "" -> status (resp s') = Some 200) /\
    header (resp s') = ∅.
Proof.
  intros Hkeep Hurl Hparse Hall Henc.
  pose proof (Has_nonempty _ _ Hurl) as Hne.
  destruct (indexHandler_answer W query); same_request; try done.
  - rewrite Forall_forall in Hall. destruct H2. by apply Hall.
  - destruct (served_response W out (url.Get query "url")) as (Hb & Hh & Hs & Ht).
    exists out. eexists. split; [done|]. split_and!; try done.
    intros Hbytes%String.eqb_neq. by rewrite Hs, Hbytes.
  - by rewrite Henc in H2.
Qed.

Lemma filtered_feed_served_witness :
  let query := query_of [("skip", ["recall"]); ("url", ["https://example.org/feed"])] in
  keepItem_of query = inl (keepItem_skip ["recall"]) /\
  url.Has query "url" = true /\
  ParseURL example_world (url.Get query "url") = inl scenario_feed /\
  Forall complete (kept (keepItem_skip ["recall"]) (gofeed.Feed.Items scenario_feed)) /\
  exists out s',
    indexHandler example_world query initial = Done tt s' /\
    trace s' = [EvFetch (url.Get query "url"); EvWriteRss out] /\
    body (resp s') = (RssBytes example_world out).1.
Proof.
  intros query.
  assert (Hkeep : keepItem_of query = inl (keepItem_skip ["recall"])) by reflexivity.
  assert (Hurl : url.Has query "url" = true) by reflexivity.
  assert (Hparse : ParseURL example_world (url.Get query "url") = inl scenario_feed)
    by reflexivity.
  assert (Hall : Forall complete
            (kept (keepItem_skip ["recall"]) (gofeed.Feed.Items scenario_feed))).
  { replace (kept (keepItem_skip ["recall"]) (gofeed.Feed.Items scenario_feed))
      with [item_titled "Alpha launch" (Some alice) (Some 1700000001);
            item_titled "Gamma update" (Some alice) (Some 1700000003)]
      by (by vm_compute).
    repeat constructor; by eexists. }
  split_and!; try done.
  destruct (@filtered_feed_served mini_regexp example_world query
              (keepItem_skip ["recall"]) scenario_feed Hkeep Hurl Hparse Hall)
    as (out & s' & Hrun & Htrace & _ & Hbody & _ & _); [intros f; reflexivity|].
  exists out, s'. split; [exact Hrun|]. split; [exact Htrace|exact Hbody].
Defined.

(** When the handler panics (lines 104-110).  For a request that passes
    validation and whose feed parses, the handler panics exactly when
    some item the predicate keeps lacks its author or its publication
    time, and returns exactly when every kept item has both; items the
    predicate rejects, and the feed's own author, play no part.  A
    panic leaves the response untouched after the one fetch. *)
Theorem handler_panics_iff_incomplete `{L : RegexpLib} (W : World)
    (query : gmap string (list string)) (keepItem : string -> bool)
    (originalFeed : gofeed.Feed.t) :
  keepItem_of query = inl keepItem ->
  url.Has query "url" = true ->
  ParseURL W (url.Get query "url") = inl originalFeed ->
  let run := indexHandler W query initial in
  let I := gofeed.Feed.Items originalFeed in
  ((exists p s, run = Panicked p s) <->
     exists it, it ∈ kept keepItem I /\ ~ complete it) /\
  ((exists s, run = Done tt s) <-> Forall complete (kept keepItem I)) /\
  (forall p s, run = Panicked p s ->
     resp s = newResponse /\ trace s = [EvFetch (url.Get query "url")]).
Proof.
  intros Hkeep Hurl Hparse run I.
  pose proof (Has_nonempty _ _ Hurl) as Hne.
  pose proof (indexHandler_answer W query) as Hanswer. fold run in Hanswer.
  split_and!.
  - split.
    + intros (p & s & Hrun). rewrite Hrun in Hanswer.
      inversion Hanswer; subst; same_request. by eexists.
    + intros (it & Hin & Hinc).
      destruct (incomplete_kept_item_panics W query keepItem originalFeed it)
        as [p Hp]; try done. by exists p; eexists.
  - split.
    + intros (s & Hrun). rewrite Hrun in Hanswer.
      inversion Hanswer; subst; same_request; try done;
        by eapply Forall2_projects_complete.
    + intros Hall. destruct Hanswer; same_request; try done; try by eexists.
      rewrite Forall_forall in Hall. destruct H2. by apply Hall.
  - intros p s Hrun. rewrite Hrun in Hanswer.
    inversion Hanswer; subst. done.
Qed.

Lemma handler_panics_iff_incomplete_witness :
  let query := query_of [("skip", ["recall"]);
                         ("url", ["https://example.org/authorless"])] in
  keepItem_of query = inl (keepItem_skip ["recall"]) /\
  url.Has query "url" = true /\
  ParseURL example_world (url.Get query "url") = inl authorless_feed /\
  exists p s, indexHandler example_world query initial = Panicked p s.
Proof.
  split; [reflexivity|]. split; [reflexivity|]. split; [reflexivity|].
  apply (@handler_panics_iff_incomplete mini_regexp example_world
           (query_of [("skip", ["recall"]); ("url", ["https://example.org/authorless"])])
           (keepItem_skip ["recall"]) authorless_feed eq_refl eq_refl eq_refl).
  exists (item_titled "Alpha launch" None (Some 1700000001)).
  split; [apply list_elem_of_here|]. intros [[a Ha] _]. discriminate Ha.
Defined.

(** The outside effects of one request (lines 44-115), whatever the
    query and whatever the outcome: nothing at all unless validation
    passes; otherwise one fetch, of the first [url] value, followed by
    at most one encoding.  The handler never fetches twice, never
    encodes before it has fetched, and never encodes twice. *)
Theorem effects_in_order `{L : RegexpLib} (W : World)
    (query : gmap string (list string)) :
  let s := final (indexHandler W query initial) in
  let u := url.Get query "url" in
  (trace s = [] /\ ~ (exists keepItem, validated query keepItem)) \/
  ((exists keepItem, validated query keepItem) /\
   (trace s = [EvFetch u] \/ exists out, trace s = [EvFetch u; EvWriteRss out])).
Proof.
  intros s u. subst s.
  destruct (indexHandler_answer W query); simpl.
  - left. split; [done|]. intros (k & _ & Hurl). by apply Has_nonempty in Hurl.
  - left. split; [done|]. intros (k & Hk & _). congruence.
  - left. split; [done|]. intros (k & _ & Hurl). congruence.
  - right. split; [by eexists|by left].
  - right. split; [by eexists|by left].
  - right. split; [by eexists|]. right. by exists out.
  - right. split; [by eexists|]. right. by exists out.
Qed.

Ltac listed := solve [repeat first [apply list_elem_of_here | apply list_elem_of_further]].

Lemma http_Error_status msg code w :
  status (http_Error msg code w) = Some (default code (status w)).
Proof. unfold http_Error, Write, WriteHeader. simpl. by destruct (status w). Qed.

(** What the status tells (lines 56, 70, 75, 82).  The handler leaves
    the status unset or sets 200, 400 or 500.  It is 400 exactly when
    the query is not empty and validation fails, and then nothing was
    fetched; it is 500 only after the fetch, with the error text as
    body; a panic leaves it unset. *)
Theorem status_reflects_stage `{L : RegexpLib} (W : World)
    (query : gmap string (list string)) :
  let run := indexHandler W query initial in
  let s := final run in
  status (resp s) ∈ [None; Some 200; Some 400; Some 500] /\
  (status (resp s) = Some 400 <->
     size query <> 0%nat /\ ~ (exists keepItem, validated query keepItem)) /\
  (status (resp s) = Some 400 -> trace s = []) /\
  (status (resp s) = Some 500 ->
     fetched s = [url.Get query "url"] /\
     exists err, body (resp s) = err +:+ newline) /\
  (forall p s', run = Panicked p s' -> status (resp s) = None).
Proof.
  intros run s. subst s run.
  destruct (indexHandler_answer W query) as
    [Hz|msg Hne Hk|k Hne Hk Hurl|k err Hv Hp|k feed it p Hv Hp Hin Hinc
    |k feed out Hv Hp Hall Henc|k feed out err Hv Hp Hall Henc].
  - simpl. split_and!; try done.
    + listed.
    + split; [done|]. by intros [? _].
  - simpl. split_and!; try done.
    + listed.
    + split; [|done]. intros _. split; [done|]. intros (k & Hk' & _). congruence.
  - simpl. split_and!; try done.
    + listed.
    + split; [|done]. intros _. split; [done|]. intros (k' & _ & Hurl'). congruence.
  - simpl. split_and!; try done.
    + listed.
    + split; [done|]. intros [_ Hno]. destruct Hno. by exists k.
    + intros _. split; [done|]. by exists err.
  - simpl. split_and!; try done.
    + listed.
    + split; [done|]. intros [_ Hno]. destruct Hno. by exists k.
  - destruct (served_response W out (url.Get query "url")) as (Hb & Hh & Hs & Ht).
    unfold final, fetched. rewrite Hs, Ht.
    destruct (String.eqb _ _); split_and!; try done;
      try listed; (split; [done|]; intros [_ Hno]; destruct Hno; by exists k).
  - destruct (served_response W out (url.Get query "url")) as (Hb & Hh & Hs & Ht).
    unfold final, fetched. cbn [resp trace].
    rewrite http_Error_status, Hs.
    destruct (String.eqb (RssBytes W out).1 "") eqn:E; cbn [default]; split_and!;
      try done; try listed;
      try (split; [done|]; intros [_ Hno]; destruct Hno; by exists k).
    intros _. split; [done|]. exists err.
    apply String.eqb_eq in E. unfold after_encode, http_Error, Write, WriteHeader.
    simpl. by rewrite E.
Qed.

(** ** Items the predicate rejects *)

(** The loop of lines 101-112 reads nothing but the title of an item
    the predicate rejects: run on the whole list or on the kept items
    alone, it ends the same way, with the same feed or the same panic. *)
Theorem dropped_items_ignored (keepItem : string -> bool)
    (I : list gofeed.Item.t) (f : feeds.Feed.t) (s : state) :
  range_items keepItem (kept keepItem I) f s = range_items keepItem I f s.
Proof.
  revert f. induction I as [|item rest IH]; intros f; [done|].
  destruct (keepItem (gofeed.Item.Title item)) eqn:Hkeep.
  - rewrite (kept_cons_true _ _ _ Hkeep). simpl. rewrite Hkeep.
    unfold mbind, M_bind.
    destruct (deref "item.Author" (gofeed.Item.Author item) s) as [author s1|p s1] eqn:Ha;
      [|done].
    destruct (gofeed.Item.Author item); [|done]. injection Ha as <- <-.
    destruct (deref "item.PublishedParsed" (gofeed.Item.PublishedParsed item) s)
      as [created s2|p s2] eqn:Hd; [|done].
    destruct (gofeed.Item.PublishedParsed item); [|done]. injection Hd as <- <-.
    apply IH.
  - rewrite (kept_cons_false _ _ _ Hkeep). simpl. rewrite Hkeep. apply IH.
Qed.

(** ** statusHandler: the ignored error of line 132 *)

(** Line 132 drops the error of [mem.VirtualMemory]; line 140 reads the
    result.  When the statistics are missing the handler panics before
    anything is written; when they are there it returns with status
    200, having set no header and touched nothing outside. *)
Theorem status_needs_memory_stats (float64 : Type) (float_zero : float64)
    (FormatFloat : nat -> float64 -> string) (h : Host float64) :
  let run := statusHandler float_zero FormatFloat h initial in
  match mem_VirtualMemory h with
  | None => exists p, run = Panicked p initial
  | Some _ =>
      exists s', run = Done tt s' /\
        status (resp s') = Some 200 /\ header (resp s') = ∅ /\ trace s' = []
  end.
Proof.
  intros run. subst run. unfold statusHandler, status_args.
  destruct (mem_VirtualMemory h) as [sysMem|].
  - unfold mbind, M_bind. rewrite deref_some. unfold mret, M_ret.
    rewrite Sprintf_statusPattern. by eexists.
  - by eexists.
Qed.

(** ** The skip words as a set *)

Lemma Contains_app s1 s2 v :
  slices.Contains (s1 ++ s2) v = slices.Contains s1 v || slices.Contains s2 v.
Proof.
  induction s1 as [|x s1 IH]; simpl; [done|]. by destruct (String.eqb x v).
Qed.

Lemma skip_loop_app s1 s2 words :
  skip_loop (s1 ++ s2) words = skip_loop s1 words && skip_loop s2 words.
Proof.
  induction words as [|w words IH]; simpl; [done|].
  rewrite Contains_app, IH.
  destruct (slices.Contains s1 w), (slices.Contains s2 w); simpl; try done.
  by rewrite andb_false_r.
Qed.

(** Skip words add up (lines 61-68): a title passes two lists put
    together exactly when it passes each of them; so more words never
    keep more, and only the set of words matters, not their order or
    their repetition. *)
Theorem skip_lists_combine (s1 s2 : list string) (title : string) :
  keepItem_skip (s1 ++ s2) title = keepItem_skip s1 title && keepItem_skip s2 title /\
  ((forall w, w ∈ s1 -> w ∈ s2) ->
     keepItem_skip s2 title = true -> keepItem_skip s1 title = true) /\
  ((forall w, w ∈ s1 <-> w ∈ s2) ->
     keepItem_skip s1 title = keepItem_skip s2 title).
Proof.
  assert (Hmono : forall a b : list string, (forall w, w ∈ a -> w ∈ b) ->
            keepItem_skip b title = true -> keepItem_skip a title = true).
  { intros a b Hsub. unfold keepItem_skip. rewrite !skip_loop_spec.
    intros Hb word Hword Hin. by apply (Hb word Hword), Hsub. }
  split_and!.
  - apply skip_loop_app.
  - apply Hmono.
  - intros Heq.
    destruct (keepItem_skip s1 title) eqn:E1, (keepItem_skip s2 title) eqn:E2; try done.
    + rewrite (Hmono s2 s1) in E2; [done|by intros w ?%Heq|done].
    + rewrite (Hmono s1 s2) in E1; [done|by intros w ?%Heq|done].
Qed.

(** ** Titles without tokens, words that are no tokens *)

Lemma split_chunks_blank cs :
  Forall (fun c => unicode.IsSpace (fst c) = true) cs -> split_chunks cs [] = [].
Proof.
  induction 1 as [|c cs Hc _ IH]; simpl; [done|]. by rewrite Hc, IH.
Qed.

(** A title that is empty or all white space has no token, so skip
    mode keeps it whatever the skip words (lines 61-68). *)
Theorem blank_title_kept (skips : list string) (title : string) :
  blank title -> keepItem_skip skips title = true.
Proof.
  intros Hblank. unfold keepItem_skip.
  by rewrite Fields_split, (split_chunks_blank _ Hblank).
Qed.

Lemma blank_title_kept_witness :
  blank ("  " +:+ tab +:+ newline) /\
  blank "" /\
  keepItem_skip ["recall"; ""] ("  " +:+ tab +:+ newline) = true.
Proof.
  assert (Hb : blank ("  " +:+ tab +:+ newline)) by (repeat constructor).
  split; [exact Hb|]. split; [constructor|].
  exact (blank_title_kept ["recall"; ""] _ Hb).
Defined.

(** ** Parameters the handler does not read *)

Lemma first_value_read (q1 q2 : gmap string (list string)) key :
  head <$> (q1 !! key) = head <$> (q2 !! key) ->
  url.Has q1 key = url.Has q2 key /\ url.Get q1 key = url.Get q2 key.
Proof.
  unfold url.Has, url.Get. intros H.
  destruct (q1 !! key) as [[|x l]|], (q2 !! key) as [[|y l']|];
    simplify_eq/=; split; try done;
    by rewrite !bool_decide_eq_true_2 by by eexists.
Qed.

(** What a request is read for (lines 46-78).  Of a query that is not
    empty the handler reads whether [re] is there and its first value,
    the values of [skip] when [re] is absent, and whether [url] is there
    and its first value.  Two such queries that agree on these get the
    same answer: other parameters, further values of [re] and [url],
    and [skip] beside [re] change nothing. *)
Theorem unread_parameters_ignored `{L : RegexpLib} (W : World)
    (q1 q2 : gmap string (list string)) (s : state) :
  size q1 <> 0%nat ->
  size q2 <> 0%nat ->
  head <$> (q1 !! "re") = head <$> (q2 !! "re") ->
  (q1 !! "re" = None -> q1 !! "skip" = q2 !! "skip") ->
  head <$> (q1 !! "url") = head <$> (q2 !! "url") ->
  indexHandler W q1 s = indexHandler W q2 s.
Proof.
  intros Hne1 Hne2 [Hre Hpattern]%first_value_read Hskip [Hurl Hget]%first_value_read.
  rewrite !indexHandler_nonempty by done.
  assert (Hkeep : keepItem_of q1 = keepItem_of q2).
  { unfold keepItem_of. rewrite <- Hre, <- Hpattern.
    destruct (url.Has q1 "re") eqn:E; [done|].
    apply Has_false in E. by rewrite (Hskip E). }
  by rewrite Hkeep, Hurl, Hget.
Qed.

Lemma unread_parameters_ignored_witness :
  let q1 := query_of [("skip", ["recall"]); ("utm_source", ["mail"]);
                      ("url", ["https://example.org/feed"; "https://example.org/gone"])] in
  let q2 := query_of [("skip", ["recall"]); ("url", ["https://example.org/feed"])] in
  size q1 <> 0%nat /\ size q2 <> 0%nat /\
  head <$> (q1 !! "re") = head <$> (q2 !! "re") /\
  (q1 !! "re" = None -> q1 !! "skip" = q2 !! "skip") /\
  head <$> (q1 !! "url") = head <$> (q2 !! "url") /\
  indexHandler example_world q1 initial = indexHandler example_world q2 initial.
Proof.
  intros q1 q2.
  assert (H1 : size q1 <> 0%nat) by (by vm_compute).
  assert (H2 : size q2 <> 0%nat) by (by vm_compute).
  assert (H3 : head <$> (q1 !! "re") = head <$> (q2 !! "re")) by reflexivity.
  assert (H4 : q1 !! "re" = None -> q1 !! "skip" = q2 !! "skip")
    by (intros _; reflexivity).
  assert (H5 : head <$> (q1 !! "url") = head <$> (q2 !! "url")) by reflexivity.
  split; [exact H1|]. split; [exact H2|]. split; [exact H3|].
  split; [exact H4|]. split; [exact H5|].
  exact (@unread_parameters_ignored mini_regexp example_world q1 q2 initial
           H1 H2 H3 H4 H5).
Defined.

(** ** Skip words that are no tokens *)

Ltac bounds :=
  repeat match goal with
  | H : negb _ = false |- _ => apply negb_false_iff in H
  | H : negb _ = true |- _ => apply negb_true_iff in H
  | H : (_ || _) = true |- _ => apply orb_true_iff in H as [H|H]
  | H : (_ || _) = false |- _ => apply orb_false_iff in H as [? ?]
  | H : (_ && _) = true |- _ => apply andb_true_iff in H as [? ?]
  | H : (_ && _) = false |- _ => apply andb_false_iff in H as [H|H]
  | H : (_ <? _) = true |- _ => apply Z.ltb_lt in H
  | H : (_ <? _) = false |- _ => apply Z.ltb_ge in H
  | H : (_ <=? _) = true |- _ => apply Z.leb_le in H
  | H : (_ <=? _) = false |- _ => apply Z.leb_gt in H
  | H : (_ =? _) = true |- _ => apply Z.eqb_eq in H
  | H : (_ =? _) = false |- _ => apply Z.eqb_neq in H
  end.

(** An ASCII white space byte is never part of a longer encoding. *)
Lemma decode_blank c t r w b :
  utf8.DecodeRuneInString (c :: t) = (r, w) ->
  b ∈ take w (c :: t) ->
  strings.asciiSpace b = true ->
  unicode.IsSpace r = true.
Proof.
  unfold utf8.DecodeRuneInString, strings.asciiSpace, utf8.accept, utf8.cont,
    utf8.RuneSelf.
  intros Hdec Hin Hb.
  repeat case_match; simplify_eq; simpl in Hin;
    repeat (apply elem_of_cons in Hin as [->|Hin]);
    try (by apply elem_of_nil in Hin);
    bounds; try lia;
    match goal with H : utf8.byte _ = _ |- _ => by rewrite H end.
Qed.

Lemma runes_plain n : forall l,
  (length l <= n)%nat -> Forall plain_bytes (runes_from l 0).
Proof.
  induction n as [|n IH]; intros [|c t] Hlen; simpl in Hlen;
    try (by constructor); [lia|].
  rewrite runes_from_cons.
  pose proof (decode_width c t) as Hw.
  destruct (utf8.DecodeRuneInString (c :: t)) as [r w] eqn:Hdec. simpl in Hw.
  constructor.
  - split; [destruct w; [lia|done]|].
    intros b Hin Hb. by eapply decode_blank.
  - apply IH. rewrite length_drop. simpl. lia.
Qed.

(** A token is not empty and holds no byte of ASCII white space. *)
Lemma token_bytes (title tok : string) :
  is_token title tok -> tok <> "" /\ ~ has_blank tok.
Proof.
  intros (pre & mid & post & Hrunes & -> & Hne & Hmid & _ & _).
  pose proof (runes_plain _ (list_ascii_of_string title) (le_n _)) as Hplain.
  fold (runes title) in Hplain. rewrite Hrunes in Hplain.
  apply Forall_app in Hplain as [_ [Hplain _]%Forall_app].
  unfold has_blank, text_of, bytes_of. split.
  - intros Hempty%(f_equal list_ascii_of_string).
    rewrite list_ascii_of_string_of_list_ascii in Hempty.
    destruct mid as [|c mid]; [done|].
    apply Forall_cons in Hplain as [[Hc _] _].
    simpl in Hempty. by apply app_eq_nil in Hempty as [? _].
  - intros (b & Hin & Hb).
    rewrite list_ascii_of_string_of_list_ascii in Hin.
    apply list_elem_of_In, in_concat in Hin as (bytes & Hbytes & Hin).
    apply in_map_iff in Hbytes as (c & <- & Hc).
    apply list_elem_of_In in Hc, Hin.
    rewrite Forall_forall in Hplain, Hmid.
    destruct (Hplain c Hc) as [_ Hspace].
    specialize (Hspace b Hin Hb). specialize (Hmid c Hc). simpl in Hmid. congruence.
Qed.

(** A skip word that is empty or holds white space filters nothing
    (lines 61-68): no title has it as a token, so putting it on the
    list changes nothing, and on its own it keeps every title.  A bare
    [skip=] passes the whole feed; a phrase given as one value does not
    act as its words would. *)
Theorem inert_skip_words (w : string) (skips : list string) (title : string) :
  w = "" \/ has_blank w ->
  ~ is_token title w /\
  keepItem_skip (w :: skips) title = keepItem_skip skips title /\
  keepItem_skip [w] title = true.
Proof.
  intros Hw.
  assert (Hno : ~ is_token title w).
  { intros [Hne Hnb]%token_bytes. by destruct Hw. }
  assert (Hsame : forall l, keepItem_skip (w :: l) title = keepItem_skip l title).
  { intros l. apply eq_true_iff_eq. unfold keepItem_skip.
    rewrite !skip_loop_spec. split; intros H word Hin.
    - intros Hs. apply (H word Hin). by apply list_elem_of_further.
    - intros [->|Hs]%elem_of_cons; [by apply Hno, Fields_tokens|by apply (H word Hin)]. }
  split_and!; [done|apply Hsame|].
  rewrite Hsame. unfold keepItem_skip. apply skip_loop_spec.
  intros word _. apply not_elem_of_nil.
Qed.

Lemma inert_skip_words_witness :
  ("Beta recall" = "" \/ has_blank "Beta recall") /\
  ~ is_token "Beta recall" "Beta recall" /\
  keepItem_skip ["Beta recall"; "update"] "Beta recall"
    = keepItem_skip ["update"] "Beta recall" /\
  keepItem_skip ["Beta recall"] "Beta recall" = true.
Proof.
  assert (Hw : "Beta recall" = "" \/ has_blank "Beta recall").
  { right. exists " "%char. split; [|reflexivity]. simpl.
    do 4 apply list_elem_of_further. apply list_elem_of_here. }
  split; [exact Hw|].
  exact (inert_skip_words "Beta recall" ["update"] "Beta recall" Hw).
Defined.
